(** * Experiencer: the document tree and the hover/select engine

    A shallow embedding of the resume editor's node component
    ([src/components/ResumeNodeBase.tsx]), of the [Header] component, of
    [ToolbarOptions] and of the session state [ResumeState], together with
    the parts of the engine that the components call through their props. *)

From Stdlib Require Import Ascii.
From stdpp Require Import gmap strings list fin_maps.

Open Scope string_scope.
Open Scope list_scope.

(** ** Values, errors and outcomes *)

(** [IdType] of [utility/HoverTracker]: the hierarchical id of a node, an
    array of sibling indices from a root down to the node. *)
Abbreviation IdType := (list nat) (only parsing).

(** [EditorMode] is a union of string literals; the components compare it
    with [===] against ['printing'] and ['changingTemplate']. *)
Abbreviation EditorMode := string (only parsing).

(** What a node field can hold: [string | boolean | object | Array<any>]
    in [ResumeNodeBase.updateData]. *)
Inductive Value : Type :=
  | VText (s : string)
  | VFlag (b : bool)
  | VTexts (l : list string)
  | VRecord (kvs : list (string * string)).

(** JavaScript truthiness of a possibly missing field. *)
Definition truthy (v : option Value) : bool :=
  match v with
  | None => false
  | Some (VText s) => negb (bool_decide (s = ""))
  | Some (VFlag b) => b
  | Some (VTexts _) => true
  | Some (VRecord _) => true
  end.

Inductive Error : Type :=
  | InvalidAddress
  | TypeError.

(** A call either completes with the next state or throws. *)
Inductive Outcome (S : Type) : Type :=
  | Done (s : S)
  | Raised (e : Error).
Arguments Done {S} s.
Arguments Raised {S} e.

(** What the caller of a throwing call is left with: the state before the
    call and the error, or the new state. *)
Definition settle {S : Type} (h : S → Outcome S) (s : S) : S * option Error :=
  match h s with
  | Done s' => (s', None)
  | Raised e => (s, Some e)
  end.

(** ** Strings and sets of class names *)

(** [String.prototype.split] with a separator of one character: the pieces
    between the separators, empty pieces included; the empty string splits
    into one empty piece. *)
Fixpoint split (sep : ascii) (s : string) : list string :=
  match s with
  | EmptyString => [""]
  | String c s' =>
      if bool_decide (c = sep) then "" :: split sep s'
      else match split sep s' with
           | [] => [String c ""]
           | piece :: pieces => String c piece :: pieces
           end
  end.

(** [Array.prototype.join] with a separator of one character. *)
Definition join (sep : ascii) (l : list string) : string :=
  String.concat (String sep "") l.

(** [Set.prototype.add]: a [Set] iterates in insertion order and adding a
    member again changes nothing. *)
Definition setAdd (set : list string) (x : string) : list string :=
  if bool_decide (x ∈ set) then set else set ++ [x].

(** [new Set(array)]. *)
Definition newSet (l : list string) : list string := foldl setAdd [] l.

(** [Set.prototype.delete]. *)
Definition setDelete (x : string) (set : list string) : list string :=
  filter (λ y, y ≠ x) set.

(** Whether the character occurs in the string, and how often. *)
Fixpoint hasChar (c : ascii) (s : string) : bool :=
  match s with
  | EmptyString => false
  | String a s' => bool_decide (a = c) || hasChar c s'
  end.

Fixpoint countChar (c : ascii) (s : string) : nat :=
  match s with
  | EmptyString => 0
  | String a s' => (if bool_decide (a = c) then 1 else 0) + countChar c s'
  end.

(** ** Addresses *)

Fixpoint isPrefix (a h : IdType) : bool :=
  match a, h with
  | [], _ => true
  | _ :: _, [] => false
  | x :: a', y :: h' => bool_decide (x = y) && isPrefix a' h'
  end.

Definition isStrictPrefix (a h : IdType) : bool :=
  isPrefix a h && bool_decide (length a < length h).

(** ** The node tree *)

Module NodeTree.

(** A node of the resume: the permanent [uuid], the [type] discriminator,
    the remaining fields of the object ([value], [isHidden], [title],
    ...) and the ordered children. *)
#[local] Unset Elimination Schemes.
Inductive Node : Type :=
  mkNode (uuid : string) (type : string)
         (fields : gmap string Value) (children : list Node).

#[local] Set Elimination Schemes.

Definition uuid (n : Node) : string :=
  match n with mkNode u _ _ _ => u end.
Definition type (n : Node) : string :=
  match n with mkNode _ t _ _ => t end.
Definition fields (n : Node) : gmap string Value :=
  match n with mkNode _ _ f _ => f end.
Definition children (n : Node) : list Node :=
  match n with mkNode _ _ _ cs => cs end.

Definition setField (key : string) (v : Value) (n : Node) : Node :=
  mkNode (uuid n) (type n) (<[key := v]> (fields n)) (children n).

Definition setChildren (cs : list Node) (n : Node) : Node :=
  mkNode (uuid n) (type n) (fields n) cs.

(** The hidden flag as the component reads it: the truthiness of the
    [isHidden] field. *)
Definition hidden (n : Node) : bool := truthy (fields n !! "isHidden").

(** The part of a node that is its own: everything but the subtrees. *)
Definition own (n : Node) : string * string * gmap string Value :=
  (uuid n, type n, fields n).

(** Modelled from the spec: [resolve(address) -> Node | none] of the
    NodeStore, which is not among the sources: a pure lookup that follows
    the sibling indices from the root list. The empty address names no
    node. *)
Fixpoint resolve (roots : list Node) (a : IdType) : option Node :=
  match a with
  | [] => None
  | i :: rest =>
      match roots !! i with
      | None => None
      | Some n =>
          match rest with
          | [] => Some n
          | _ :: _ => resolve (children n) rest
          end
      end
  end.

(** Rebuild the forest with [f] applied to the node at [a]; [None] when
    [a] does not resolve. *)
Fixpoint modify (f : Node → Node) (roots : list Node) (a : IdType)
  : option (list Node) :=
  match a with
  | [] => None
  | i :: rest =>
      match roots !! i with
      | None => None
      | Some n =>
          match rest with
          | [] => Some (<[i := f n]> roots)
          | _ :: _ =>
              match modify f (children n) rest with
              | None => None
              | Some cs => Some (<[i := setChildren cs n]> roots)
              end
          end
      end
  end.

(** Modelled from the spec: [update(address, key, value)] of the
    NodeStore, which is not among the sources: merges [value] into the
    resolved node's [data[key]] and fails with [InvalidAddress] when the
    address does not resolve. *)
Definition update (a : IdType) (key : string) (v : Value)
    (roots : list Node) : Error + list Node :=
  match modify (setField key v) roots a with
  | Some roots' => inr roots'
  | None => inl InvalidAddress
  end.

(** Modelled from the spec: [add(parentAddress, node)] of the NodeStore,
    which is not among the sources: appends [node] as the last child of
    the resolved parent and fails with [InvalidAddress] otherwise. *)
Definition add (parent : IdType) (node : Node)
    (roots : list Node) : Error + list Node :=
  match modify (λ p, setChildren (children p ++ [node]) p) roots parent with
  | Some roots' => inr roots'
  | None => inl InvalidAddress
  end.

(** Recursion over a node together with the list of its children. *)
Fixpoint Node_rect' (P : Node → Type) (Q : list Node → Type)
    (Hnil : Q []) (Hcons : ∀ n l, P n → Q l → Q (n :: l))
    (Hnode : ∀ u t f cs, Q cs → P (mkNode u t f cs)) (n : Node) : P n :=
  match n with
  | mkNode u t f cs =>
      Hnode u t f cs
        ((fix go (l : list Node) : Q l :=
            match l with
            | [] => Hnil
            | c :: l' => Hcons c l' (Node_rect' P Q Hnil Hcons Hnode c) (go l')
            end) cs)
  end.

(** The number of levels of a node, a leaf having one, and of a list of
    nodes. *)
Fixpoint height (n : Node) : nat :=
  match n with
  | mkNode _ _ _ cs => S (max_list (height <$> cs))
  end.

Definition forestHeight (roots : list Node) : nat :=
  max_list (height <$> roots).

End NodeTree.

(** ** Props handed from the top down *)

Module Props.
Import NodeTree.

(** [ToolbarOption]: a labelled action, or a labelled submenu. An [Action]
    is a thunk run against the session. *)
#[local] Unset Elimination Schemes.
Inductive ToolbarOption (S : Type) : Type :=
  mkOption (text : string) (action : option (S → Outcome S))
           (actions : option (list (ToolbarOption S))).
#[local] Set Elimination Schemes.
Arguments mkOption {S} text action actions.

Abbreviation CustomToolbarOptions S := (list (ToolbarOption S)).

(** The part of [ResumePassProps] that [renderChildren] forwards to every
    child unchanged: the editor mode and the callbacks into the session
    of type [S]. *)
Record ResumePassProps (S : Type) : Type := {
  mode : EditorMode;
  addChild : option (IdType → Node → S → Outcome S);
  toggleEdit : IdType → S → Outcome S;
  hoverOver : IdType → S → Outcome S;
  hoverOut : IdType → S → Outcome S;
  isHovering : IdType → S → bool;
  isSelected : string → S → bool;
  isSelectBlocked : IdType → S → bool;
  updateData : IdType → string → Value → S → Outcome S;
  updateSelected : option IdType → S → Outcome S;
  updateCustomOptions : CustomToolbarOptions S → S → Outcome S
}.
Arguments mode {S} _.
Arguments addChild {S} _.
Arguments toggleEdit {S} _ _ _.
Arguments hoverOver {S} _ _ _.
Arguments hoverOut {S} _ _ _.
Arguments isHovering {S} _ _ _.
Arguments isSelected {S} _ _ _.
Arguments isSelectBlocked {S} _ _ _.
Arguments updateData {S} _ _ _ _ _.
Arguments updateSelected {S} _ _ _.
Arguments updateCustomOptions {S} _ _ _.

(** [ResumeNodeProps]: what a mounted node component sees. [elem] stands
    for the spread [...elem] of the tree node, so the node's children and
    its [isHidden] field are read from it. *)
Record ResumeNodeProps (S : Type) : Type := {
  id : IdType;
  uuid : string;
  pass : ResumePassProps S;
  elem : Node;
  isEditing : bool
}.
Arguments id {S} _.
Arguments uuid {S} _.
Arguments pass {S} _.
Arguments elem {S} _.
Arguments isEditing {S} _.

Definition children {S : Type} (p : ResumeNodeProps S) : list Node :=
  NodeTree.children (elem p).

Definition isHidden {S : Type} (p : ResumeNodeProps S) : option Value :=
  fields (elem p) !! "isHidden".

(** The props object that [renderChildren] builds for each child before it
    is handed to [ResumeComponent]. *)
Record ResumeComponentProps (S : Type) : Type := {
  c_elem : Node;
  c_uuid : string;
  c_pass : ResumePassProps S;
  index : nat;
  numChildren : nat;
  parentId : option IdType
}.
Arguments c_elem {S} _.
Arguments c_uuid {S} _.
Arguments c_pass {S} _.
Arguments index {S} _.
Arguments numChildren {S} _.
Arguments parentId {S} _.

(** The hover/select trigger props: each handler is attached or absent. *)
Record TriggerProps (S : Type) : Type := {
  onClick : option (S → Outcome S);
  onMouseEnter : option (S → Outcome S);
  onMouseLeave : option (S → Outcome S)
}.
Arguments onClick {S} _.
Arguments onMouseEnter {S} _.
Arguments onMouseLeave {S} _.

Record TextFieldProps (S : Type) : Type := {
  tf_isEditing : bool;
  tf_onClick : option (S → Outcome S);
  tf_onEnterDown : S → Outcome S
}.
Arguments tf_isEditing {S} _.
Arguments tf_onClick {S} _.
Arguments tf_onEnterDown {S} _.

End Props.

(** ** The node component, [ResumeNodeBase] *)

Module ResumeNodeBase.
Import NodeTree.

Section Component.
Context {S : Type}.
Implicit Types (p : Props.ResumeNodeProps S) (s : S).

Definition isPrinting p : bool :=
  bool_decide (Props.mode (Props.pass p) = "printing").

Definition isHovering p s : bool :=
  Props.isHovering (Props.pass p) (Props.id p) s && negb (isPrinting p).

Definition isSelected p s : bool :=
  Props.isSelected (Props.pass p) (Props.uuid p) s.

Definition isEditing p s : bool :=
  Props.isEditing p && isSelected p s.

(** Prevent component from being edited from the template changing
    screen. *)
Definition isEditable p : bool :=
  negb (isPrinting p)
  && negb (bool_decide (Props.mode (Props.pass p) = "changingTemplate")).

(** True if we are directly hovering over one of this node's children. *)
Definition isSelectBlocked p s : bool :=
  Props.isSelectBlocked (Props.pass p) (Props.id p) s.

(** The classes of the main container, before they are joined. *)
Definition classes p s : list string :=
  (if negb (isPrinting p) then
     (if isHovering p s then
        "resume-hovering" ::
        (if isSelectBlocked p s then ["resume-hovering-over-children"]
         else ["resume-hovering-over-self"])
      else [])
     ++
     (if isSelected p s then
        "resume-selected" ::
        (if Props.isEditing p then ["resume-editing"] else [])
      else [])
   else [])
  ++ (if truthy (Props.isHidden p) then ["resume-hidden"] else []).

Definition className p s : string := String.concat " " (classes p s).

Definition customToolbarOptions p : Props.CustomToolbarOptions S := [].

Definition isEmpty p : bool := bool_decide (length (Props.children p) = 0).

Definition toggleEdit p : S → Outcome S :=
  Props.toggleEdit (Props.pass p) (Props.id p).

Definition addChild p (node : Node) : S → Outcome S :=
  match Props.addChild (Props.pass p) with
  | Some add => add (Props.id p) node
  | None => Done
  end.

Definition updateData p (key : string) (data : Value) : S → Outcome S :=
  Props.updateData (Props.pass p) (Props.id p) key data.

Definition toggleHidden p : S → Outcome S :=
  Props.updateData (Props.pass p) (Props.id p) "isHidden"
    (VFlag (negb (truthy (Props.isHidden p)))).

Definition setSelected p : S → Outcome S :=
  λ s,
    if negb (isSelected p s) && negb (isSelectBlocked p s)
    then Props.updateSelected (Props.pass p) (Some (Props.id p)) s
    else Done s.

(** Returns hover/select trigger props. *)
Definition selectTriggerProps p : Props.TriggerProps S :=
  if negb (isEditable p) then
    {| Props.onClick := None;
       Props.onMouseEnter := None;
       Props.onMouseLeave := None |}
  else
    {| Props.onClick := Some (setSelected p);
       Props.onMouseEnter := Some (Props.hoverOver (Props.pass p) (Props.id p));
       Props.onMouseLeave := Some (Props.hoverOut (Props.pass p) (Props.id p)) |}.

(** Returns props which make a text input responsive to clicks and
    keyboard events. The [displayProcessor] entry is the imported [process]
    helper, which plays no part in the engine and is left out. *)
Definition textFieldProps p s : Props.TextFieldProps S :=
  {| Props.tf_isEditing := Props.isEditing p && isSelected p s;
     Props.tf_onClick := if isSelected p s then Some (toggleEdit p) else None;
     Props.tf_onEnterDown := toggleEdit p |}.

Definition renderChildren p : list (Props.ResumeComponentProps S) :=
  imap (λ idx elem,
          {| Props.c_elem := elem;
             Props.c_uuid := NodeTree.uuid elem;
             Props.c_pass := Props.pass p;
             Props.index := idx;
             Props.numChildren := length (Props.children p);
             Props.parentId := Some (Props.id p) |})
       (Props.children p).

(** The three pointer events a node's container can receive. *)
Inductive PointerEvent : Type := Click | MouseEnter | MouseLeave.

(** Deliver an event to the handler attached for it, if any. *)
Definition fire (ev : PointerEvent) p : S → Outcome S :=
  let handler :=
    match ev with
    | Click => Props.onClick (selectTriggerProps p)
    | MouseEnter => Props.onMouseEnter (selectTriggerProps p)
    | MouseLeave => Props.onMouseLeave (selectTriggerProps p)
    end in
  match handler with
  | Some h => h
  | None => Done
  end.

End Component.
End ResumeNodeBase.

(** ** A session that only records the calls made into it *)

Module Recording.
Import NodeTree.

(** One call through a callback of [ResumePassProps]. *)
Inductive Call : Type :=
  | AddChild (id : IdType) (node : Node)
  | ToggleEdit (id : IdType)
  | HoverOver (id : IdType)
  | HoverOut (id : IdType)
  | UpdateData (id : IdType) (key : string) (data : Value)
  | UpdateSelected (id : option IdType)
  | UpdateCustomOptions.

(** The id a call was made with, if it was made with one. *)
Definition target (c : Call) : option IdType :=
  match c with
  | AddChild id _ | ToggleEdit id | HoverOver id | HoverOut id
  | UpdateData id _ _ => Some id
  | UpdateSelected id => id
  | UpdateCustomOptions => None
  end.

(** Props whose callbacks append the call to the log and whose three
    queries answer as [hovering], [selected] and [blocked] say. *)
Definition pass (mode : EditorMode)
    (hovering : IdType → list Call → bool)
    (selected : string → list Call → bool)
    (blocked : IdType → list Call → bool)
  : Props.ResumePassProps (list Call) :=
  {| Props.mode := mode;
     Props.addChild := Some (λ id node log, Done (log ++ [AddChild id node]));
     Props.toggleEdit := λ id log, Done (log ++ [ToggleEdit id]);
     Props.hoverOver := λ id log, Done (log ++ [HoverOver id]);
     Props.hoverOut := λ id log, Done (log ++ [HoverOut id]);
     Props.isHovering := hovering;
     Props.isSelected := selected;
     Props.isSelectBlocked := blocked;
     Props.updateData := λ id key data log, Done (log ++ [UpdateData id key data]);
     Props.updateSelected := λ id log, Done (log ++ [UpdateSelected id]);
     Props.updateCustomOptions := λ _ log, Done (log ++ [UpdateCustomOptions]) |}.

End Recording.

(** ** The [Header] component *)

Module Header.
Import NodeTree.

Section Component.
Context {S : Type}.
Implicit Types (p : Props.ResumeNodeProps S).

(** What the [<h1>] holds: the editable [<input>] with its change handler,
    or the displayed text. *)
Inductive TitleMarkup : Type :=
  | TitleInput (value : option Value) (onChange : string → S → Outcome S)
  | TitleText (shown : Value).

Record Markup : Type := {
  triggers : Props.TriggerProps S;
  title : TitleMarkup;
  body : list (Props.ResumeComponentProps S)
}.

Definition value p : TitleMarkup :=
  let v := fields (Props.elem p) !! "value" in
  if Props.isEditing p then
    TitleInput v (λ text, ResumeNodeBase.updateData p "value" (VText text))
  else
    TitleText (match v with
               | Some shown => if truthy v then shown else VText "Enter a title"
               | None => VText "Enter a title"
               end).

Definition render p : Markup :=
  {| triggers := ResumeNodeBase.selectTriggerProps p;
     title := value p;
     body := ResumeNodeBase.renderChildren p |}.

(** [Header.className]: the classes of [super.className] as a [Set], without
    ['row'], joined again. [super] is the [Row] component, which is not
    among the sources; its class name is the argument. *)
Definition className (superClassName : string) : string :=
  join " "%char (setDelete "row" (newSet (split " "%char superClassName))).

(** Whether the markup shows the editable form of the header. *)
Definition showsInput (m : Markup) : bool :=
  match title m with
  | TitleInput _ _ => true
  | TitleText _ => false
  end.

End Component.
End Header.

(** ** [ToolbarOptions] *)

Module ToolbarOptions.
Import NodeTree.

(** [Entry.name], the name of the imported [Entry] class. *)
Definition Entry_name : string := "Entry".

Section Resolver.
Context {S : Type}.

(** [node.title || []] followed by [push('')]: a missing or falsy field
    starts a fresh array; a truthy value that is not an array has no
    [push], and the call throws. This is what one call returns and when
    it throws. The source pushes onto the node's own array in place and
    hands that same array to [updateNode]; the node is a value here, so
    the change of the node itself and what a further run of the same
    action would find are not represented. *)
Definition pushField (key : string) (node : Node) : option (list string) :=
  match fields node !! key with
  | Some (VTexts arr) => Some (arr ++ [""])
  | v => if truthy v then None else Some [""]
  end.

Definition addTitleField (node : Node) : option (list string) :=
  pushField "title" node.

Definition addSubtitleField (node : Node) : option (list string) :=
  pushField "subtitle" node.

Definition ToolbarOptions (type : string) (node : Node)
    (updateNode : string → Value → S → Outcome S)
  : Props.CustomToolbarOptions S :=
  if bool_decide (type = Entry_name) then
    [ Props.mkOption "Title Options" None
        (Some
           [ Props.mkOption "Add another title field"
               (Some (λ s,
                  match addTitleField node with
                  | Some arr => updateNode "title" (VTexts arr) s
                  | None => Raised TypeError
                  end))
               None;
             Props.mkOption "Add another subtitle field"
               (Some (λ s,
                  match addSubtitleField node with
                  | Some arr => updateNode "subtitle" (VTexts arr) s
                  | None => Raised TypeError
                  end))
               None ]) ]
  else [].

End Resolver.
End ToolbarOptions.

(** ** Walking an option tree *)

Module OptionTree.

Section Walk.
Context {S : Type}.

(** An entry is a leaf with an action or a node with a submenu, never
    both and never neither, and so are the entries below it. *)
Fixpoint wellFormed (o : Props.ToolbarOption S) : bool :=
  match o with
  | Props.mkOption _ (Some _) None => true
  | Props.mkOption _ None (Some subs) => forallb wellFormed subs
  | Props.mkOption _ _ _ => false
  end.

(** The labelled actions of an entry and of everything below it, in
    order. *)
Fixpoint actionsOf (o : Props.ToolbarOption S)
  : list (string * (S → Outcome S)) :=
  match o with
  | Props.mkOption text action actions =>
      match action with
      | Some run => [(text, run)]
      | None => []
      end
      ++ match actions with
         | Some subs => flat_map actionsOf subs
         | None => []
         end
  end.

End Walk.
End OptionTree.

(** ** The earlier build in [public/scripts/bundle.js] *)

Module Bundle.

Section ChildHolder.
(** The React elements a holder keeps; [None] stands for [undefined]. *)
Context {A : Type}.

(** [new ChildHolder(children)]: an array is kept as it is; anything else,
    [undefined] included, becomes the only member, because the test
    [this.children] is on the fresh array and always passes. *)
Definition ChildHolder (children : list (option A) + option A)
  : list (option A) :=
  match children with
  | inl array => array
  | inr other => [other]
  end.

(** [addChild]: pushes the child and returns the holder. *)
Definition addChild (child : option A) (holder : list (option A))
  : list (option A) :=
  holder ++ [child].

(** [render]: every member in a fragment keyed by its index. *)
Definition render (holder : list (option A)) : list (nat * option A) :=
  imap (λ idx elem, (idx, elem)) holder.

End ChildHolder.

(** [Paragraph.processTextArea]: the value split at the newlines, every
    line keyed by its index and followed by a [<br>]. *)
Definition processTextArea (value : string) : list (nat * string) :=
  imap (λ idx x, (idx, x)) (split "010"%char value).

End Bundle.

(** ** The session: [ResumeState] and the engine behind the props *)

Module Resume.
Import NodeTree.

(** [ResumeState] with its [ResumeSaveData]. The selected node is kept by
    its [uuid], and [isEditing] is the global edit flag of the spec's
    [SelectionState]. *)
Record ResumeState : Type := {
  children : list Node;
  css : string;
  mode : EditorMode;
  sectionTitlePosition : string;
  activeTemplate : option string;
  clipboard : option Node;
  hoverNode : option IdType;
  selectedNode : option string;
  isEditing : bool
}.

Definition withChildren (cs : list Node) (s : ResumeState) : ResumeState :=
  {| children := cs; css := css s; mode := mode s;
     sectionTitlePosition := sectionTitlePosition s;
     activeTemplate := activeTemplate s; clipboard := clipboard s;
     hoverNode := hoverNode s; selectedNode := selectedNode s;
     isEditing := isEditing s |}.

Definition withHover (h : option IdType) (s : ResumeState) : ResumeState :=
  {| children := children s; css := css s; mode := mode s;
     sectionTitlePosition := sectionTitlePosition s;
     activeTemplate := activeTemplate s; clipboard := clipboard s;
     hoverNode := h; selectedNode := selectedNode s;
     isEditing := isEditing s |}.

Definition withSelected (u : option string) (s : ResumeState) : ResumeState :=
  {| children := children s; css := css s; mode := mode s;
     sectionTitlePosition := sectionTitlePosition s;
     activeTemplate := activeTemplate s; clipboard := clipboard s;
     hoverNode := hoverNode s; selectedNode := u;
     isEditing := isEditing s |}.

Definition withEditing (b : bool) (s : ResumeState) : ResumeState :=
  {| children := children s; css := css s; mode := mode s;
     sectionTitlePosition := sectionTitlePosition s;
     activeTemplate := activeTemplate s; clipboard := clipboard s;
     hoverNode := hoverNode s; selectedNode := selectedNode s;
     isEditing := b |}.

(** The four states of the hover/select tracker. *)
Inductive TrackerState : Type :=
  | Idle
  | Hovering (id : IdType)
  | Selected (uuid : string)
  | SelectedAndHovering (uuid : string) (id : IdType).

Definition trackerState (s : ResumeState) : TrackerState :=
  match selectedNode s, hoverNode s with
  | None, None => Idle
  | None, Some h => Hovering h
  | Some u, None => Selected u
  | Some u, Some h => SelectedAndHovering u h
  end.

(** The non-interactive mode of the spec. *)
Definition nonInteractive (s : ResumeState) : bool :=
  bool_decide (mode s = "printing").

(** Modelled from the spec: [hoverOver(id)] of the HoverSelectTracker,
    which is not among the sources: sets hover = id, unless the session is
    in a non-interactive mode, where the call is a no-op. *)
Definition hoverOver (id : IdType) (s : ResumeState) : ResumeState :=
  if nonInteractive s then s else withHover (Some id) s.

(** Modelled from the spec: [hoverOut(id)] of the HoverSelectTracker, which
    is not among the sources: clears hover only if the current hover equals
    [id]; a no-op in a non-interactive mode like every hover call. *)
Definition hoverOut (id : IdType) (s : ResumeState) : ResumeState :=
  if nonInteractive s then s
  else if bool_decide (hoverNode s = Some id) then withHover None s
  else s.

(** Modelled from the spec: [isHovering(address)] of the
    HoverSelectTracker, which is not among the sources and of which the
    spec gives the signature only. A node counts as hovered when the
    pointer is over it or over one of its descendants, which is what lets
    [classes] tell hovering over children from hovering over self. *)
Definition isHovering (id : IdType) (s : ResumeState) : bool :=
  match hoverNode s with
  | Some h => isPrefix id h
  | None => false
  end.

(** Modelled from the spec: [isSelected(uuid)] of the HoverSelectTracker,
    which is not among the sources: the selection holds this [uuid]. *)
Definition isSelected (uuid : string) (s : ResumeState) : bool :=
  bool_decide (selectedNode s = Some uuid).

(** Modelled from the spec: [isSelectBlocked(id)] of the
    HoverSelectTracker, which is not among the sources: true iff a hover id
    exists and [id] is a strict prefix of it. *)
Definition isSelectBlocked (id : IdType) (s : ResumeState) : bool :=
  match hoverNode s with
  | Some h => isStrictPrefix id h
  | None => false
  end.

(** Modelled from the spec: [updateSelected(id?)] of the
    HoverSelectTracker, which is not among the sources: the explicit
    override. Without an id the selection is cleared; with one the
    selection becomes the [uuid] of the node the id resolves to, and an id
    that does not resolve is an [InvalidAddress]. *)
Definition updateSelected (id : option IdType) (s : ResumeState)
  : Outcome ResumeState :=
  match id with
  | None => Done (withSelected None s)
  | Some a =>
      match resolve (children s) a with
      | Some n => Done (withSelected (Some (NodeTree.uuid n)) s)
      | None => Raised InvalidAddress
      end
  end.

(** Modelled from the spec: the MutationRouter's [update], which is not
    among the sources: routes to the NodeStore and installs the new tree;
    a failure leaves the session as it was. *)
Definition updateData (a : IdType) (key : string) (v : Value)
    (s : ResumeState) : Outcome ResumeState :=
  match update a key v (children s) with
  | inr roots => Done (withChildren roots s)
  | inl e => Raised e
  end.

(** Modelled from the spec: the MutationRouter's [add], which is not among
    the sources. *)
Definition addChild (a : IdType) (node : Node) (s : ResumeState)
  : Outcome ResumeState :=
  match add a node (children s) with
  | inr roots => Done (withChildren roots s)
  | inl e => Raised e
  end.

(** Modelled from the spec: [toggleEditFlag()], which is not among the
    sources: flips the single global edit flag. The id that the node hands
    over plays no part. *)
Definition toggleEdit (id : IdType) (s : ResumeState) : ResumeState :=
  withEditing (negb (isEditing s)) s.

Section Render.
(** The toolbar collaborator's [updateCustomOptions] is outside the
    engine; it is forwarded to every node as it is given. *)
Variable updateCustomOptions :
  Props.CustomToolbarOptions ResumeState → ResumeState → Outcome ResumeState.

(** The callbacks every node receives. *)
Definition passProps (s : ResumeState) : Props.ResumePassProps ResumeState :=
  {| Props.mode := mode s;
     Props.addChild := Some addChild;
     Props.toggleEdit := λ id s', Done (toggleEdit id s');
     Props.hoverOver := λ id s', Done (hoverOver id s');
     Props.hoverOut := λ id s', Done (hoverOut id s');
     Props.isHovering := isHovering;
     Props.isSelected := isSelected;
     Props.isSelectBlocked := isSelectBlocked;
     Props.updateData := updateData;
     Props.updateSelected := updateSelected;
     Props.updateCustomOptions := updateCustomOptions |}.

(** Modelled from the spec: [ResumeComponent], which is not among the
    sources: it mounts the node for the props [renderChildren] built. The
    id of a root is [[index]], the id of a child is [parentId ++ [index]],
    and the global edit flag is threaded to every node as its [isEditing]
    prop. *)
Definition ResumeComponent (editFlag : bool)
    (cp : Props.ResumeComponentProps ResumeState)
  : Props.ResumeNodeProps ResumeState :=
  {| Props.id := match Props.parentId cp with
                 | Some parent => parent ++ [Props.index cp]
                 | None => [Props.index cp]
                 end;
     Props.uuid := Props.c_uuid cp;
     Props.pass := Props.c_pass cp;
     Props.elem := Props.c_elem cp;
     Props.isEditing := editFlag |}.

(** Mount the node [ResumeComponent] makes of the props and then, depth
    first, the props its [renderChildren] yields, [depth] levels down. *)
Fixpoint mountTree (depth : nat) (editFlag : bool)
    (cp : Props.ResumeComponentProps ResumeState)
  : list (Props.ResumeNodeProps ResumeState) :=
  match depth with
  | 0 => []
  | S depth' =>
      let p := ResumeComponent editFlag cp in
      p :: (ResumeNodeBase.renderChildren p ≫= mountTree depth' editFlag)
  end.

(** The same mounting by recursion over the node, for induction over the
    tree: it agrees with [mountTree] at every depth the tree fits in. *)
Fixpoint mount (editFlag : bool) (pass : Props.ResumePassProps ResumeState)
    (parentId : option IdType) (index numChildren : nat) (elem : Node)
    {struct elem} : list (Props.ResumeNodeProps ResumeState) :=
  let p := ResumeComponent editFlag
             {| Props.c_elem := elem;
                Props.c_uuid := NodeTree.uuid elem;
                Props.c_pass := pass;
                Props.index := index;
                Props.numChildren := numChildren;
                Props.parentId := parentId |} in
  p :: match elem with
       | mkNode _ _ _ cs =>
           (fix each (i : nat) (l : list Node) :=
              match l with
              | [] => []
              | c :: l' =>
                  mount editFlag pass (Some (Props.id p)) i (length cs) c
                  ++ each (S i) l'
              end) 0 cs
       end.

(** The id that the ids of a node's children extend. *)
Definition base (parentId : option IdType) : IdType := default [] parentId.

(** The inner loop of [mount] on its own: the children [l] of the node with
    id [parent], the first of them at index [i]. *)
Fixpoint mountEach (editFlag : bool) (pass : Props.ResumePassProps ResumeState)
    (parent : IdType) (numChildren i : nat) (l : list Node)
  : list (Props.ResumeNodeProps ResumeState) :=
  match l with
  | [] => []
  | c :: l' =>
      mount editFlag pass (Some parent) i numChildren c
      ++ mountEach editFlag pass parent numChildren (S i) l'
  end.

Definition mountChild (editFlag : bool)
    (cp : Props.ResumeComponentProps ResumeState)
  : list (Props.ResumeNodeProps ResumeState) :=
  mount editFlag (Props.c_pass cp) (Props.parentId cp) (Props.index cp)
    (Props.numChildren cp) (Props.c_elem cp).

(** Modelled from the spec: the top-level render, which is not among the
    sources: each root is handed to [ResumeComponent] with its index in the
    root list and no parent id. *)
Definition rootProps (s : ResumeState)
  : list (Props.ResumeComponentProps ResumeState) :=
  imap (λ idx elem,
          {| Props.c_elem := elem;
             Props.c_uuid := NodeTree.uuid elem;
             Props.c_pass := passProps s;
             Props.index := idx;
             Props.numChildren := length (children s);
             Props.parentId := None |})
       (children s).

(** Every node mounted for the snapshot [s], depth first: the roots and
    what [renderChildren] yields below them, as deep as the tree goes. *)
Definition render (s : ResumeState)
  : list (Props.ResumeNodeProps ResumeState) :=
  rootProps s ≫= mountTree (forestHeight (children s)) (isEditing s).

(** The props of the node [n] mounted at the address [a]. *)
Definition nodeProps (editFlag : bool)
    (pass : Props.ResumePassProps ResumeState) (a : IdType) (n : Node)
  : Props.ResumeNodeProps ResumeState :=
  {| Props.id := a;
     Props.uuid := NodeTree.uuid n;
     Props.pass := pass;
     Props.elem := n;
     Props.isEditing := editFlag |}.

Definition propsAt (s : ResumeState) (a : IdType) (n : Node)
  : Props.ResumeNodeProps ResumeState :=
  nodeProps (isEditing s) (passProps s) a n.

(** One event, aimed at the node mounted at the address [a] of the current
    snapshot; an address with no node has no handler to run. *)
Definition deliver (e : ResumeNodeBase.PointerEvent * IdType)
    (s : ResumeState) : Outcome ResumeState :=
  match resolve (children s) e.2 with
  | Some n => ResumeNodeBase.fire e.1 (propsAt s e.2 n) s
  | None => Done s
  end.

(** Events are applied in arrival order, each against the tree as the
    previous one left it; a throw ends the run. *)
Fixpoint deliverAll (es : list (ResumeNodeBase.PointerEvent * IdType))
    (s : ResumeState) : Outcome ResumeState :=
  match es with
  | [] => Done s
  | e :: es' =>
      match deliver e s with
      | Done s' => deliverAll es' s'
      | Raised err => Raised err
      end
  end.

(** The addresses derived for the snapshot. *)
Definition addresses (s : ResumeState) : list IdType :=
  Props.id <$> render s.

End Render.
End Resume.

(** ** A two-node document *)

Module Example.
Import NodeTree.

Definition nodeB : Node := mkNode "uuid-B" "Header" {[ "value" := VText "Skills" ]} [].
Definition nodeA : Node := mkNode "uuid-A" "Section" ∅ [nodeB].

Definition ignoreOptions
    (options : Props.CustomToolbarOptions Resume.ResumeState)
    (s : Resume.ResumeState) : Outcome Resume.ResumeState := Done s.

Definition session (m : EditorMode) : Resume.ResumeState :=
  {| Resume.children := [nodeA];
     Resume.css := "";
     Resume.mode := m;
     Resume.sectionTitlePosition := "top";
     Resume.activeTemplate := None;
     Resume.clipboard := None;
     Resume.hoverNode := None;
     Resume.selectedNode := None;
     Resume.isEditing := false |}.

Definition propsA (s : Resume.ResumeState) :=
  Resume.propsAt ignoreOptions s [0] nodeA.
Definition propsB (s : Resume.ResumeState) :=
  Resume.propsAt ignoreOptions s [0; 0] nodeB.

End Example.

(** * Properties *)

Import NodeTree.

(** ** Prefixes of addresses *)

Lemma isPrefix_spec (a h : IdType) :
  isPrefix a h = true ↔ ∃ rest, h = a ++ rest.
Proof.
  revert h. induction a as [|x a IH]; intros h; simpl.
  - split; [intros _; by exists h | done].
  - destruct h as [|y h].
    + split; [done | intros [rest Hr]; discriminate Hr].
    + rewrite andb_true_iff, bool_decide_eq_true, IH. split.
      * intros [-> [rest ->]]. by exists rest.
      * intros [rest Hr]. injection Hr as -> ->. split; [done | by exists rest].
Qed.

Lemma isStrictPrefix_spec (a h : IdType) :
  isStrictPrefix a h = true ↔ ∃ rest, rest ≠ [] ∧ h = a ++ rest.
Proof.
  unfold isStrictPrefix.
  rewrite andb_true_iff, bool_decide_eq_true, isPrefix_spec. split.
  - intros [[rest ->] Hlen]. exists rest. split; [|done].
    intros ->. rewrite app_nil_r in Hlen. lia.
  - intros (rest & Hne & ->). split; [by exists rest|].
    rewrite length_app. destruct rest; [done | simpl; lia].
Qed.

Lemma isStrictPrefix_irrefl (a : IdType) : isStrictPrefix a a = false.
Proof.
  unfold isStrictPrefix. rewrite (bool_decide_eq_false_2 (length a < length a)) by lia.
  apply andb_false_r.
Qed.

Lemma isStrictPrefix_asym (a h : IdType) :
  isPrefix h a = true → isStrictPrefix a h = false.
Proof.
  intros [r1 ->]%isPrefix_spec. apply not_true_is_false.
  intros (r2 & Hne & Heq)%isStrictPrefix_spec.
  apply (f_equal length) in Heq. rewrite !length_app in Heq.
  destruct r2; [done | simpl in Heq; lia].
Qed.

(** ** Induction over the tree *)

Lemma Node_ind' (P : Node → Prop) :
  (∀ u t f cs, Forall P cs → P (mkNode u t f cs)) → ∀ n, P n.
Proof.
  intros H. apply (Node_rect' P (Forall P)); auto.
Qed.

(** ** Resolving addresses *)

Lemma resolve_cons (roots : list Node) (i : nat) (rest : IdType) :
  resolve roots (i :: rest) =
    n ← roots !! i; if decide (rest = []) then Some n else resolve (children n) rest.
Proof.
  simpl. destruct (roots !! i) as [n|]; simpl; [|done].
  destruct rest; by case_decide.
Qed.

Lemma resolve_snoc (roots : list Node) (a : IdType) (j : nat) :
  a ≠ [] →
  resolve roots (a ++ [j]) = n ← resolve roots a; children n !! j.
Proof.
  revert roots. induction a as [|i a IH]; intros roots Hne; [done|].
  rewrite <- app_comm_cons, !resolve_cons.
  destruct (roots !! i) as [n|]; simpl; [|done].
  destruct (decide (a = [])) as [->|Ha]; simpl.
  - by destruct (children n !! j).
  - rewrite decide_False by (by destruct a). by apply IH.
Qed.

(** ** Rebuilding the tree at an address *)

Lemma modify_cons f (roots : list Node) (i : nat) (rest : list nat) :
  modify f roots (i :: rest) =
    n ← roots !! i;
    if decide (rest = []) then Some (<[i := f n]> roots)
    else cs ← modify f (children n) rest; Some (<[i := setChildren cs n]> roots).
Proof.
  simpl. destruct (roots !! i) as [n|]; simpl; [|done].
  destruct rest; by case_decide.
Qed.

(** [modify] succeeds exactly on the addresses that resolve. *)
Lemma modify_None f (roots : list Node) (a : list nat) :
  modify f roots a = None ↔ resolve roots a = None.
Proof.
  revert roots. induction a as [|i rest IH]; intros roots; [done|].
  rewrite modify_cons, resolve_cons.
  destruct (roots !! i) as [n|]; simpl; [|done].
  case_decide; [done|]. rewrite <- IH.
  by destruct (modify f (children n) rest).
Qed.

(** The node at the address is replaced by its image under [f]. *)
Lemma resolve_modify f (roots roots' : list Node) (a : list nat) :
  modify f roots a = Some roots' →
  ∃ n, resolve roots a = Some n ∧ resolve roots' a = Some (f n).
Proof.
  revert roots roots'. induction a as [|i rest IH]; intros roots roots'; [done|].
  rewrite modify_cons, !resolve_cons.
  destruct (roots !! i) as [n|] eqn:Hi; simpl; [|done].
  pose proof (lookup_lt_Some _ _ _ Hi) as Hlt.
  case_decide.
  - intros [= <-]. exists n. by rewrite list_lookup_insert_eq.
  - destruct (modify f (children n) rest) as [cs|] eqn:Hm; simpl; [|done].
    intros [= <-]. destruct (IH _ _ Hm) as (m & Hr & Hr').
    exists m. rewrite list_lookup_insert_eq by done. simpl. done.
Qed.

(** Every address resolves after the rebuild iff it did before, and the
    node it resolves to has its own part unchanged, except at the
    address that was rebuilt. *)
Lemma resolve_modify_own f (roots roots' : list Node) (a : list nat) :
  (∀ n, children (f n) = children n) →
  modify f roots a = Some roots' →
  ∀ b, own <$> resolve roots' b
       = (λ n, if decide (b = a) then own (f n) else own n) <$> resolve roots b.
Proof.
  intros Hf. revert roots roots'.
  induction a as [|i rest IH]; intros roots roots'; [done|].
  rewrite modify_cons.
  destruct (roots !! i) as [n|] eqn:Hi; simpl; [|done].
  pose proof (lookup_lt_Some _ _ _ Hi) as Hlt.
  intros Hm [|j brest]; [done|]. rewrite !resolve_cons.
  destruct (decide (j = i)) as [->|Hji].
  - rewrite Hi. simpl. case_decide as Hrest.
    + injection Hm as <-. rewrite list_lookup_insert_eq by done. simpl.
      subst rest. case_decide as Hb.
      * subst brest. simpl. by case_decide.
      * rewrite Hf. destruct (resolve (children n) brest); [|done].
        simpl. case_decide; [|done]. congruence.
    + destruct (modify f (children n) rest) as [cs|] eqn:Hcs; simpl in Hm; [|done].
      injection Hm as <-. rewrite list_lookup_insert_eq by done. simpl.
      case_decide as Hb.
      * subst brest. simpl. case_decide; [|done]. congruence.
      * rewrite (IH _ _ Hcs brest).
        destruct (resolve (children n) brest); [|done]. simpl.
        repeat case_decide; try done; congruence.
  - assert (roots' !! j = roots !! j) as ->.
    { case_decide.
      - injection Hm as <-. by apply list_lookup_insert_ne.
      - destruct (modify f (children n) rest); simpl in Hm; [|done].
        injection Hm as <-. by apply list_lookup_insert_ne. }
    destruct (roots !! j) as [m|]; [|done]. simpl.
    destruct (if decide (brest = []) then Some m else resolve (children m) brest);
      [|done].
    simpl. clear Hm. case_decide; [|done]. congruence.
Qed.

(** Only the image of the resolved node matters. *)
Lemma modify_ext_at f g (roots : list Node) (a : list nat) (n : Node) :
  resolve roots a = Some n → f n = g n → modify f roots a = modify g roots a.
Proof.
  revert roots. induction a as [|i rest IH]; intros roots; [done|].
  rewrite resolve_cons, !modify_cons.
  destruct (roots !! i) as [m|]; simpl; [|done].
  case_decide.
  - by intros [= ->] ->.
  - intros Hr Hfg. by rewrite (IH _ Hr Hfg).
Qed.

Lemma modify_id_at f (roots : list Node) (a : list nat) (n : Node) :
  resolve roots a = Some n → f n = n → modify f roots a = Some roots.
Proof.
  revert roots. induction a as [|i rest IH]; intros roots; [done|].
  rewrite resolve_cons, !modify_cons.
  destruct (roots !! i) as [m|] eqn:Hi; simpl; [|done].
  case_decide.
  - intros [= ->] ->. by rewrite list_insert_id.
  - intros Hr Hfg. rewrite (IH _ Hr Hfg). simpl.
    rewrite list_insert_id; [done|]. by destruct m.
Qed.

(** Two rebuilds at one address are one rebuild with the composed map. *)
Lemma modify_modify f g (roots roots1 : list Node) (a : list nat) :
  modify f roots a = Some roots1 →
  modify g roots1 a = modify (g ∘ f) roots a.
Proof.
  revert roots roots1. induction a as [|i rest IH]; intros roots roots1; [done|].
  rewrite !modify_cons.
  destruct (roots !! i) as [n|] eqn:Hi; simpl; [|done].
  pose proof (lookup_lt_Some _ _ _ Hi) as Hlt.
  case_decide.
  - intros [= <-]. rewrite list_lookup_insert_eq by done. simpl.
    by rewrite list_insert_insert_eq.
  - destruct (modify f (children n) rest) as [cs|] eqn:Hcs; simpl; [|done].
    intros [= <-]. rewrite list_lookup_insert_eq by done. simpl.
    rewrite (IH _ _ Hcs).
    destruct (modify (g ∘ f) (children n) rest); simpl; [|done].
    by rewrite list_insert_insert_eq.
Qed.

(** ** Mounting the tree *)

Section Mounting.
Variable updateCustomOptions :
  Props.CustomToolbarOptions Resume.ResumeState →
  Resume.ResumeState → Outcome Resume.ResumeState.

Abbreviation render := (Resume.render updateCustomOptions).
Abbreviation passProps := (Resume.passProps updateCustomOptions).
Abbreviation propsAt := (Resume.propsAt updateCustomOptions).

Implicit Types (s : Resume.ResumeState) (q : Props.ResumeNodeProps Resume.ResumeState).

Lemma mount_eq flag pass parentId index num (elem : Node) :
  Resume.mount flag pass parentId index num elem =
    Resume.nodeProps flag pass (Resume.base parentId ++ [index]) elem
    :: Resume.mountEach flag pass (Resume.base parentId ++ [index])
         (length (children elem)) 0 (children elem).
Proof.
  destruct elem as [u t f cs]. simpl. f_equal; [by destruct parentId|].
  assert (Resume.base parentId ++ [index]
          = match parentId with Some parent => parent ++ [index] | None => [index] end)
    as <- by (by destruct parentId).
  generalize (length cs) as n, 0 as i.
  induction cs as [|c l IH]; intros n i; [done|].
  simpl. f_equal. apply IH.
Qed.

(** [mount] runs [renderChildren] of the mounted node and mounts each of
    the props it yields. *)
Lemma mountEach_imap flag pass parent num i (l : list Node) :
  Resume.mountEach flag pass parent num i l =
    imap (λ j c, {| Props.c_elem := c; Props.c_uuid := uuid c;
                    Props.c_pass := pass; Props.index := i + j;
                    Props.numChildren := num;
                    Props.parentId := Some parent |}) l
    ≫= Resume.mountChild flag.
Proof.
  revert i. induction l as [|c l IH]; intros i; [done|].
  simpl. rewrite IH. f_equal.
  - unfold Resume.mountChild. simpl. by rewrite Nat.add_0_r.
  - unfold mbind. f_equal. apply imap_ext. intros j x _. simpl.
    by rewrite Nat.add_succ_r.
Qed.

Lemma mount_renderChildren flag (cp : Props.ResumeComponentProps Resume.ResumeState) :
  Props.c_uuid cp = uuid (Props.c_elem cp) →
  Resume.mountChild flag cp =
    Resume.ResumeComponent flag cp
    :: (ResumeNodeBase.renderChildren (Resume.ResumeComponent flag cp)
        ≫= Resume.mountChild flag).
Proof.
  intros Hu. unfold Resume.mountChild. rewrite mount_eq, mountEach_imap.
  unfold Resume.ResumeComponent, ResumeNodeBase.renderChildren, Props.children.
  unfold Resume.nodeProps. simpl. rewrite Hu. by destruct (Props.parentId cp).
Qed.

Lemma mountEach_spec flag pass (a : IdType) num (l : list Node) :
  Forall (λ n, ∀ parentId index num' q,
            q ∈ Resume.mount flag pass parentId index num' n ↔
            q = Resume.nodeProps flag pass (Resume.base parentId ++ [index]) n
            ∨ ∃ rest m, resolve (children n) rest = Some m
                ∧ q = Resume.nodeProps flag pass
                        (Resume.base parentId ++ index :: rest) m) l →
  ∀ i q,
    q ∈ Resume.mountEach flag pass a num i l ↔
    ∃ j rest m, resolve l (j :: rest) = Some m
      ∧ q = Resume.nodeProps flag pass (a ++ (i + j) :: rest) m.
Proof.
  induction 1 as [|c l Hc _ IH]; intros i q.
  - simpl. split; [by intros ?%elem_of_nil | by intros (j & rest & m & ? & _)].
  - simpl Resume.mountEach. rewrite elem_of_app, Hc, IH. simpl Resume.base. split.
    + intros [[->|(rest & m & Hr & ->)]|(j & rest & m & Hr & ->)].
      * exists 0, [], c. by rewrite Nat.add_0_r.
      * exists 0, rest, m. rewrite Nat.add_0_r. split; [|done].
        destruct rest; [done|]. done.
      * exists (S j), rest, m. by rewrite Nat.add_succ_r.
    + intros (j & rest & m & Hr & ->). destruct j as [|j].
      * left. rewrite Nat.add_0_r. simpl in Hr. destruct rest.
        -- left. by injection Hr as ->.
        -- right. by exists (n :: rest), m.
      * right. exists j, rest, m. by rewrite Nat.add_succ_r.
Qed.

Lemma mount_spec flag pass (n : Node) : ∀ parentId index num q,
  q ∈ Resume.mount flag pass parentId index num n ↔
  q = Resume.nodeProps flag pass (Resume.base parentId ++ [index]) n
  ∨ ∃ rest m, resolve (children n) rest = Some m
      ∧ q = Resume.nodeProps flag pass (Resume.base parentId ++ index :: rest) m.
Proof.
  induction n as [u t f cs IH] using Node_ind'. intros parentId index num q.
  rewrite mount_eq, elem_of_cons, (mountEach_spec _ _ _ _ _ IH). simpl children.
  apply or_iff_compat_l. split.
  - intros (j & rest & m & Hr & ->). exists (j :: rest), m.
    by rewrite <- app_assoc.
  - intros (rest & m & Hr & ->). destruct rest as [|j rest]; [done|].
    exists j, rest, m. by rewrite <- app_assoc.
Qed.

Lemma bind_ext_Forall {A B : Type} (f g : A → list B) (l : list A) :
  Forall (λ x, f x = g x) l → l ≫= f = l ≫= g.
Proof.
  induction 1 as [|x l Hx _ IH]; [done|].
  unfold mbind in *. simpl. by rewrite Hx, IH.
Qed.

(** At a depth the node fits in, mounting through [renderChildren] is the
    mounting by recursion over the node. *)
Lemma mountTree_enough flag (n : Node) :
  ∀ depth (cp : Props.ResumeComponentProps Resume.ResumeState),
    Props.c_elem cp = n → Props.c_uuid cp = uuid n → (height n ≤ depth)%nat →
    Resume.mountTree depth flag cp = Resume.mountChild flag cp.
Proof.
  induction n as [u t f cs IH] using Node_ind'. intros depth cp He Hu Hh.
  destruct depth as [|depth]; [simpl in Hh; lia|].
  rewrite mount_renderChildren by (by rewrite He).
  simpl Resume.mountTree. f_equal. apply bind_ext_Forall, Forall_lookup.
  intros j cp' Hcp'. unfold ResumeNodeBase.renderChildren in Hcp'.
  rewrite list_lookup_imap in Hcp'. unfold Props.children in Hcp'.
  simpl in Hcp'. rewrite He in Hcp'. simpl in Hcp'.
  destruct (cs !! j) as [c|] eqn:Hc; [|done]. injection Hcp' as <-.
  apply (proj1 (Forall_lookup _ _) IH j c Hc); [done..|].
  simpl in Hh. apply Nat.succ_le_mono in Hh.
  etrans; [|exact Hh]. apply max_list_elem_of_le, list_elem_of_fmap.
  exists c. split; [done|]. by apply list_elem_of_lookup_2 in Hc.
Qed.

Lemma mountRoots_enough s depth :
  (forestHeight (Resume.children s) ≤ depth)%nat →
  Resume.rootProps updateCustomOptions s ≫= Resume.mountTree depth (Resume.isEditing s)
  = Resume.rootProps updateCustomOptions s ≫= Resume.mountChild (Resume.isEditing s).
Proof.
  intros Hh. apply bind_ext_Forall, Forall_lookup. intros j cp Hcp.
  unfold Resume.rootProps in Hcp. rewrite list_lookup_imap in Hcp.
  destruct (Resume.children s !! j) as [c|] eqn:Hc; [|done]. injection Hcp as <-.
  apply (mountTree_enough _ c); [done..|].
  etrans; [|exact Hh]. apply max_list_elem_of_le, list_elem_of_fmap.
  exists c. split; [done|]. by apply list_elem_of_lookup_2 in Hc.
Qed.

Lemma render_structural s :
  render s
  = Resume.rootProps updateCustomOptions s ≫= Resume.mountChild (Resume.isEditing s).
Proof. by apply mountRoots_enough. Qed.

Lemma render_mountEach s :
  render s =
    Resume.mountEach (Resume.isEditing s) (passProps s) []
      (length (Resume.children s)) 0 (Resume.children s).
Proof.
  rewrite render_structural. unfold Resume.rootProps.
  generalize (length (Resume.children s)) as num.
  generalize (Resume.children s) as l. intros l num.
  rewrite <- (imap_ext (λ j c, {| Props.c_elem := c; Props.c_uuid := uuid c;
                    Props.c_pass := passProps s; Props.index := 0 + j;
                    Props.numChildren := num; Props.parentId := None |}))
    by done.
  generalize 0 as i. induction l as [|c l IH]; intros i; [done|].
  simpl. rewrite <- IH. unfold mbind. simpl. f_equal.
  - unfold Resume.mountChild. simpl. by rewrite !mount_eq, Nat.add_0_r.
  - f_equal. apply imap_ext. intros j x _. simpl. by rewrite Nat.add_succ_r.
Qed.

(** The mounted nodes are exactly the nodes that addresses resolve to, each
    with the address that resolves to it. *)
Lemma render_spec s q :
  q ∈ render s ↔
  ∃ a n, resolve (Resume.children s) a = Some n ∧ q = propsAt s a n.
Proof.
  rewrite render_mountEach, mountEach_spec.
  - split.
    + intros (j & rest & m & Hr & ->). by exists (j :: rest), m.
    + intros (a & n & Hr & ->). destruct a as [|j rest]; [done|].
      by exists j, rest, n.
  - apply Forall_forall. intros n _. apply mount_spec.
Qed.

Lemma mountEach_id_form flag pass (a : IdType) num i (l : list Node) (b : IdType) :
  b ∈ Props.id <$> Resume.mountEach flag pass a num i l →
  ∃ j rest, b = a ++ (i + j) :: rest.
Proof.
  intros (q & -> & Hq)%list_elem_of_fmap.
  apply mountEach_spec in Hq as (j & rest & m & _ & ->).
  - by exists j, rest.
  - apply Forall_forall. intros n _. apply mount_spec.
Qed.

Lemma mount_id_form flag pass parentId index num (n : Node) (b : IdType) :
  b ∈ Props.id <$> Resume.mount flag pass parentId index num n →
  ∃ rest, b = Resume.base parentId ++ index :: rest.
Proof.
  intros (q & -> & Hq)%list_elem_of_fmap.
  apply mount_spec in Hq as [->|(rest & m & _ & ->)]; [by exists [] | by exists rest].
Qed.

Lemma NoDup_mountEach flag pass (a : IdType) num (l : list Node) :
  Forall (λ n, ∀ parentId index num',
            NoDup (Props.id <$> Resume.mount flag pass parentId index num' n)) l →
  ∀ i, NoDup (Props.id <$> Resume.mountEach flag pass a num i l).
Proof.
  induction 1 as [|c l Hc _ IH]; intros i; [by apply NoDup_nil|].
  simpl. rewrite fmap_app. apply NoDup_app. split_and!; [apply Hc | | apply IH].
  intros b [r1 ->]%mount_id_form (j & r2 & Heq)%mountEach_id_form.
  simpl in Heq. apply app_inv_head in Heq. injection Heq as Heq _. lia.
Qed.

Lemma NoDup_mount flag pass (n : Node) : ∀ parentId index num,
  NoDup (Props.id <$> Resume.mount flag pass parentId index num n).
Proof.
  induction n as [u t f cs IH] using Node_ind'. intros parentId index num.
  rewrite mount_eq, fmap_cons. apply NoDup_cons. split.
  - intros (j & rest & Heq)%mountEach_id_form. simpl in Heq.
    apply (f_equal length) in Heq. rewrite !length_app in Heq. simpl in Heq. lia.
  - by apply NoDup_mountEach.
Qed.

Lemma NoDup_addresses s : NoDup (Resume.addresses updateCustomOptions s).
Proof.
  unfold Resume.addresses. rewrite render_mountEach. apply NoDup_mountEach.
  apply Forall_forall. intros n _. apply NoDup_mount.
Qed.

End Mounting.

(** ** Derived addresses *)

Section Addresses.
Variable updateCustomOptions :
  Props.CustomToolbarOptions Resume.ResumeState →
  Resume.ResumeState → Outcome Resume.ResumeState.

Abbreviation render := (Resume.render updateCustomOptions).
Abbreviation propsAt := (Resume.propsAt updateCustomOptions).

Implicit Types (s : Resume.ResumeState) (q : Props.ResumeNodeProps Resume.ResumeState).

Lemma mounted_resolves s q :
  q ∈ render s → resolve (Resume.children s) (Props.id q) = Some (Props.elem q).
Proof. by intros (a & n & Hr & ->)%render_spec. Qed.

Lemma mounted_props s q :
  q ∈ render s → q = propsAt s (Props.id q) (Props.elem q).
Proof. by intros (a & n & Hr & ->)%render_spec. Qed.

Lemma mounted_uuid s q :
  q ∈ render s → Props.uuid q = uuid (Props.elem q).
Proof. by intros (a & n & Hr & ->)%render_spec. Qed.

Lemma mounted_pass s q :
  q ∈ render s → Props.pass q = Resume.passProps updateCustomOptions s.
Proof. by intros (a & n & Hr & ->)%render_spec. Qed.

(** What [renderChildren] yields for a mounted node is mounted in turn, at
    the parent's id extended by the child's index. *)
Lemma renderChildren_mounted s q j cp :
  q ∈ render s →
  ResumeNodeBase.renderChildren q !! j = Some cp →
  Props.index cp = j ∧ Props.parentId cp = Some (Props.id q)
  ∧ Props.children q !! j = Some (Props.c_elem cp)
  ∧ Props.id (Resume.ResumeComponent (Resume.isEditing s) cp) = Props.id q ++ [j]
  ∧ Resume.ResumeComponent (Resume.isEditing s) cp ∈ render s.
Proof.
  intros Hq Hcp. unfold ResumeNodeBase.renderChildren in Hcp.
  rewrite list_lookup_imap in Hcp.
  destruct (Props.children q !! j) as [c|] eqn:Hc; [|done].
  injection Hcp as <-. simpl. split_and!; try done.
  apply render_spec. exists (Props.id q ++ [j]), c. split.
  - pose proof (mounted_resolves _ _ Hq) as Hr.
    rewrite resolve_snoc, Hr; [done|]. intros Hnil. by rewrite Hnil in Hr.
  - unfold Resume.ResumeComponent, Resume.propsAt, Resume.nodeProps. simpl.
    by rewrite (mounted_pass _ _ Hq).
Qed.

(** C9. For every snapshot, the node mounted for a root has the id
    [[index]]; for every mounted node, [renderChildren] yields props for
    each of its children, and the node mounted for the j-th of them has
    the parent's id with j appended; every mounted node arises in one of
    these two ways and every node of the tree is mounted, at the address
    that resolves to it; the derived addresses are pairwise distinct, and
    an address identifies exactly one node: it resolves to the node it
    was derived for, and two mounted nodes with one id are the same.
    Mounting through [renderChildren] gives the same nodes at every depth
    the tree fits in. *)
Theorem derived_addresses_distinct s :
  (∀ i n, Resume.children s !! i = Some n → propsAt s [i] n ∈ render s)
  ∧ (∀ q j cp, q ∈ render s →
       ResumeNodeBase.renderChildren q !! j = Some cp →
       Props.id (Resume.ResumeComponent (Resume.isEditing s) cp) = Props.id q ++ [j]
       ∧ Resume.ResumeComponent (Resume.isEditing s) cp ∈ render s)
  ∧ (∀ q, q ∈ render s →
       (∃ i, Props.id q = [i] ∧ Resume.children s !! i = Some (Props.elem q))
       ∨ (∃ parent j, parent ∈ render s ∧ Props.id q = Props.id parent ++ [j]
            ∧ Props.children parent !! j = Some (Props.elem q)))
  ∧ NoDup (Resume.addresses updateCustomOptions s)
  ∧ (∀ q, q ∈ render s →
       resolve (Resume.children s) (Props.id q) = Some (Props.elem q))
  ∧ (∀ q1 q2, q1 ∈ render s → q2 ∈ render s →
       Props.id q1 = Props.id q2 → q1 = q2)
  ∧ (∀ q j c, q ∈ render s → Props.children q !! j = Some c →
       ∃ cp, ResumeNodeBase.renderChildren q !! j = Some cp
         ∧ Props.c_elem cp = c
         ∧ Props.parentId cp = Some (Props.id q)
         ∧ Props.index cp = j
         ∧ Props.id (Resume.ResumeComponent (Resume.isEditing s) cp)
           = Props.id q ++ [j]
         ∧ Resume.ResumeComponent (Resume.isEditing s) cp ∈ render s)
  ∧ (∀ a n, resolve (Resume.children s) a = Some n →
       propsAt s a n ∈ render s
       ∧ a ∈ Resume.addresses updateCustomOptions s)
  ∧ (∀ depth, (forestHeight (Resume.children s) ≤ depth)%nat →
       Resume.rootProps updateCustomOptions s
         ≫= Resume.mountTree depth (Resume.isEditing s)
       = render s).
Proof.
  split_and!.
  - intros i n Hn. apply render_spec. exists [i], n. simpl. by rewrite Hn.
  - intros q j cp Hq Hcp.
    by destruct (renderChildren_mounted _ _ _ _ Hq Hcp) as (_ & _ & _ & ? & ?).
  - intros q (a & n & Hr & ->)%render_spec. simpl.
    destruct a as [|i a] using rev_ind; [done|]. clear IHa.
    destruct (decide (a = [])) as [->|Ha].
    + left. exists i. split; [done|]. simpl in Hr.
      by destruct (Resume.children s !! i).
    + right. rewrite resolve_snoc in Hr by done.
      destruct (resolve (Resume.children s) a) as [m|] eqn:Hm; [|done].
      exists (propsAt s a m), i. split_and!; [|done..].
      apply render_spec. by exists a, m.
  - apply NoDup_addresses.
  - apply mounted_resolves.
  - intros q1 q2 H1 H2 Heq.
    rewrite (mounted_props _ _ H1), (mounted_props _ _ H2), Heq. f_equal.
    apply mounted_resolves in H1, H2. rewrite Heq in H1. congruence.
  - intros q j c Hq Hc.
    assert (∃ cp, ResumeNodeBase.renderChildren q !! j = Some cp
                  ∧ Props.c_elem cp = c) as (cp & Hcp & Hel).
    { unfold ResumeNodeBase.renderChildren. rewrite list_lookup_imap, Hc.
      by eexists. }
    destruct (renderChildren_mounted _ _ _ _ Hq Hcp) as (? & ? & _ & ? & ?).
    by exists cp.
  - intros a n Hr.
    assert (propsAt s a n ∈ render s) as Hin
      by (apply render_spec; by exists a, n).
    split; [done|]. unfold Resume.addresses.
    apply list_elem_of_fmap. by exists (propsAt s a n).
  - intros depth Hd. by rewrite render_structural, mountRoots_enough.
Qed.

End Addresses.

(** The addresses of the two-node document are [[0]] and [[0; 0]]. *)
Lemma derived_addresses_distinct_witness :
  Resume.render Example.ignoreOptions (Example.session "normal")
    = [Example.propsA (Example.session "normal");
       Example.propsB (Example.session "normal")]
  ∧ NoDup (Resume.addresses Example.ignoreOptions (Example.session "normal")).
Proof.
  split; [reflexivity|].
  apply (derived_addresses_distinct Example.ignoreOptions (Example.session "normal")).
Defined.

(** ** Select-blocking *)

Lemma isSelectBlocked_iff (a : list nat) (s : Resume.ResumeState) :
  Resume.isSelectBlocked a s = true ↔
  ∃ h rest, Resume.hoverNode s = Some h ∧ rest ≠ [] ∧ h = a ++ rest.
Proof.
  unfold Resume.isSelectBlocked. destruct (Resume.hoverNode s) as [h|].
  - rewrite isStrictPrefix_spec. split.
    + intros (rest & ? & ?). by exists h, rest.
    + intros (h' & rest & [= <-] & ? & ?). by exists rest.
  - split; [done | by intros (h & rest & ? & _)].
Qed.

Lemma not_blocked_by_ancestor (a h : list nat) (s : Resume.ResumeState) :
  Resume.hoverNode s = Some h → isPrefix h a = true →
  Resume.isSelectBlocked a s = false.
Proof.
  intros Hh Hp. unfold Resume.isSelectBlocked. rewrite Hh.
  by apply isStrictPrefix_asym.
Qed.

Lemma isPrefix_refl (a : list nat) : isPrefix a a = true.
Proof. apply isPrefix_spec. exists []. by rewrite app_nil_r. Qed.

(** C1. [isSelectBlocked(a)] is true iff a hover address exists and [a] is
    a strict prefix of it; a node is not blocked by a hover on itself or on
    one of its ancestors; a mounted node asks the tracker about its own id;
    and in the two-node document, once the pointer has entered [B], [A] is
    blocked and [B] is not. *)
Theorem isSelectBlocked_strict_prefix :
  (∀ (a : list nat) s,
     Resume.isSelectBlocked a s = true ↔
     ∃ h rest, Resume.hoverNode s = Some h ∧ rest ≠ [] ∧ h = a ++ rest)
  ∧ (∀ (a : list nat) s,
       Resume.hoverNode s = Some a → Resume.isSelectBlocked a s = false)
  ∧ (∀ (a h : list nat) s,
       Resume.hoverNode s = Some h → isPrefix h a = true →
       Resume.isSelectBlocked a s = false)
  ∧ (∀ uco s q s', q ∈ Resume.render uco s →
       ResumeNodeBase.isSelectBlocked q s' = Resume.isSelectBlocked (Props.id q) s')
  ∧ (let s0 := Example.session "normal" in
     let s1 := Resume.hoverOver [0; 0] s0 in
     Resume.addresses Example.ignoreOptions s0 = [[0]; [0; 0]]
     ∧ ResumeNodeBase.fire ResumeNodeBase.MouseEnter (Example.propsB s0) s0 = Done s1
     ∧ Resume.isSelectBlocked [0] s1 = true
     ∧ Resume.isSelectBlocked [0; 0] s1 = false
     ∧ ResumeNodeBase.isSelectBlocked (Example.propsA s1) s1 = true
     ∧ ResumeNodeBase.isSelectBlocked (Example.propsB s1) s1 = false).
Proof.
  split_and!.
  - apply isSelectBlocked_iff.
  - intros a s Hh. apply (not_blocked_by_ancestor a a s Hh), isPrefix_refl.
  - apply not_blocked_by_ancestor.
  - intros uco s q s' Hq. unfold ResumeNodeBase.isSelectBlocked.
    by rewrite (mounted_pass uco s q Hq).
  - by vm_compute.
Qed.

(** The iff of C1 at the hover [[0; 0]]: [[0]] is blocked by it. *)
Lemma isSelectBlocked_strict_prefix_witness :
  Resume.isSelectBlocked [0] (Resume.hoverOver [0; 0] (Example.session "normal")) = true.
Proof.
  apply (proj1 isSelectBlocked_strict_prefix).
  exists [0; 0], [0]. split_and!; [reflexivity | discriminate | reflexivity].
Defined.

(** ** Clicks *)

Section Clicks.
Variable updateCustomOptions :
  Props.CustomToolbarOptions Resume.ResumeState →
  Resume.ResumeState → Outcome Resume.ResumeState.

Abbreviation render := (Resume.render updateCustomOptions).

Implicit Types (s : Resume.ResumeState) (q : Props.ResumeNodeProps Resume.ResumeState).

Lemma setSelected_free s q :
  q ∈ render s →
  ResumeNodeBase.isSelected q s = false →
  ResumeNodeBase.isSelectBlocked q s = false →
  ResumeNodeBase.setSelected q s
    = Done (Resume.withSelected (Some (Props.uuid q)) s).
Proof.
  intros Hq Hsel Hblk. unfold ResumeNodeBase.setSelected.
  rewrite Hsel, Hblk. simpl.
  rewrite (mounted_pass _ _ _ Hq). simpl.
  by rewrite (mounted_resolves _ _ _ Hq), (mounted_uuid _ _ _ Hq).
Qed.

Lemma setSelected_noop {S : Type} (p : Props.ResumeNodeProps S) (s : S) :
  ResumeNodeBase.isSelected p s = true ∨ ResumeNodeBase.isSelectBlocked p s = true →
  ResumeNodeBase.setSelected p s = Done s.
Proof.
  unfold ResumeNodeBase.setSelected. intros [->| ->]; [done|].
  by rewrite andb_false_r.
Qed.

End Clicks.

(** C2. A click on a mounted node that is neither selected nor
    select-blocked leaves the session with the selection holding that
    node's uuid and nothing else changed; a click on a node that is
    selected or select-blocked leaves the session as it was. In the
    two-node document, entering [B] and clicking [A] leaves the selection
    unset, and a click on [B] after that selects [B]. *)
Theorem click_selects_unless_blocked :
  (∀ uco s q, q ∈ Resume.render uco s →
     (ResumeNodeBase.isSelected q s = false →
      ResumeNodeBase.isSelectBlocked q s = false →
      ∃ s', ResumeNodeBase.setSelected q s = Done s'
        ∧ Resume.selectedNode s' = Some (Props.uuid q)
        ∧ ResumeNodeBase.isSelected q s' = true
        ∧ s' = Resume.withSelected (Some (Props.uuid q)) s)
     ∧ (ResumeNodeBase.isSelected q s = true
        ∨ ResumeNodeBase.isSelectBlocked q s = true →
        ResumeNodeBase.setSelected q s = Done s))
  ∧ (let s0 := Example.session "normal" in
     ∃ s1 s2,
       Resume.deliverAll Example.ignoreOptions
         [(ResumeNodeBase.MouseEnter, [0; 0]); (ResumeNodeBase.Click, [0])] s0
         = Done s1
       ∧ Resume.selectedNode s1 = None
       ∧ Resume.deliver Example.ignoreOptions (ResumeNodeBase.Click, [0; 0]) s1
         = Done s2
       ∧ Resume.selectedNode s2 = Some (uuid Example.nodeB)).
Proof.
  split.
  - intros uco s q Hq. split.
    + intros Hsel Hblk. eexists. split; [by apply (setSelected_free uco)|].
      split_and!; [done | | done].
      unfold ResumeNodeBase.isSelected. rewrite (mounted_pass uco s q Hq). simpl.
      unfold Resume.isSelected. simpl. by apply bool_decide_eq_true.
    + apply setSelected_noop.
  - simpl. eexists _, _. split_and!; [by vm_compute | done | by vm_compute | done].
Qed.

(** C2 at the node [B] of the two-node document while the pointer is over
    it: the click selects [B]. *)
Lemma click_selects_unless_blocked_witness :
  let s1 := Resume.hoverOver [0; 0] (Example.session "normal") in
  Example.propsB s1 ∈ Resume.render Example.ignoreOptions s1
  ∧ ∃ s', ResumeNodeBase.setSelected (Example.propsB s1) s1 = Done s'
      ∧ Resume.selectedNode s' = Some "uuid-B".
Proof.
  intros s1.
  assert (Example.propsB s1 ∈ Resume.render Example.ignoreOptions s1) as Hin.
  { apply render_spec. exists [0; 0], Example.nodeB. split; reflexivity. }
  split; [exact Hin|].
  destruct (proj1 (proj1 click_selects_unless_blocked
                     Example.ignoreOptions s1 (Example.propsB s1) Hin))
    as (s' & Hs' & Hsel & _); [reflexivity | reflexivity |].
  exists s'. split; [exact Hs' | exact Hsel].
Defined.

(** ** Leaving a node *)

(** C3. [hoverOut(id)] leaves the session as it was when the stored hover
    is not [id]; whenever it changes anything, the stored hover was [id] and
    the change is that the hover is cleared; in an interactive session it
    does clear a hover equal to [id]; a stale leave of [a] that arrives
    after the enter of a sibling [b] leaves the hover on [b]; and the
    mouse-leave handler of an editable node is [hoverOut] of its own id. *)
Theorem hoverOut_only_clears_own :
  (∀ (id : list nat) s, Resume.hoverNode s ≠ Some id → Resume.hoverOut id s = s)
  ∧ (∀ (id : list nat) s,
       Resume.hoverOut id s = s
       ∨ (Resume.hoverNode s = Some id
          ∧ Resume.hoverOut id s = Resume.withHover None s))
  ∧ (∀ (id : list nat) s,
       Resume.nonInteractive s = false → Resume.hoverNode s = Some id →
       Resume.hoverNode (Resume.hoverOut id s) = None)
  ∧ (∀ (a b : list nat) s,
       a ≠ b → Resume.nonInteractive s = false →
       Resume.hoverOut a (Resume.hoverOver b (Resume.hoverOver a s))
         = Resume.hoverOver b (Resume.hoverOver a s)
       ∧ Resume.hoverNode (Resume.hoverOut a (Resume.hoverOver b (Resume.hoverOver a s)))
         = Some b)
  ∧ (∀ uco s q s', q ∈ Resume.render uco s →
       ResumeNodeBase.isEditable q = true →
       ResumeNodeBase.fire ResumeNodeBase.MouseLeave q s'
         = Done (Resume.hoverOut (Props.id q) s')).
Proof.
  split_and!.
  - intros id s Hne. unfold Resume.hoverOut.
    destruct (Resume.nonInteractive s); [done|].
    by rewrite bool_decide_eq_false_2.
  - intros id s. unfold Resume.hoverOut.
    destruct (Resume.nonInteractive s); [by left|].
    case_bool_decide; [by right | by left].
  - intros id s Hi Hh. unfold Resume.hoverOut. rewrite Hi.
    by rewrite bool_decide_eq_true_2.
  - intros a b s Hne Hi. unfold Resume.hoverOver, Resume.hoverOut.
    rewrite Hi. unfold Resume.nonInteractive in *. simpl. rewrite !Hi.
    rewrite (bool_decide_eq_false_2 (Some b = Some a)) by (intros [= ->]; done).
    by destruct (bool_decide _).
  - intros uco s q s' Hq He. unfold ResumeNodeBase.fire, ResumeNodeBase.selectTriggerProps.
    rewrite He. simpl. by rewrite (mounted_pass uco s q Hq).
Qed.

(** C3 on the two-node document with a second root: the pointer enters
    [[0]], then [[1]], and the late leave of [[0]] changes nothing. *)
Lemma hoverOut_only_clears_own_witness :
  let s := Resume.hoverOver [1] (Resume.hoverOver [0] (Example.session "normal")) in
  Resume.hoverOut [0] s = s ∧ Resume.hoverNode s = Some [1].
Proof.
  split; [|reflexivity].
  apply (proj1 hoverOut_only_clears_own). discriminate.
Defined.

(** ** Modes without interaction *)

Lemma isEditable_false_iff {S : Type} (p : Props.ResumeNodeProps S) :
  ResumeNodeBase.isEditable p = false ↔
  Props.mode (Props.pass p) = "printing"
  ∨ Props.mode (Props.pass p) = "changingTemplate".
Proof.
  unfold ResumeNodeBase.isEditable, ResumeNodeBase.isPrinting.
  rewrite andb_false_iff, !negb_false_iff, !bool_decide_eq_true. done.
Qed.

Lemma not_editable_no_triggers {S : Type} (p : Props.ResumeNodeProps S) :
  ResumeNodeBase.isEditable p = false →
  ResumeNodeBase.selectTriggerProps p
    = {| Props.onClick := None; Props.onMouseEnter := None;
         Props.onMouseLeave := None |}
  ∧ ∀ ev s, ResumeNodeBase.fire ev p s = Done s.
Proof.
  intros He. unfold ResumeNodeBase.fire, ResumeNodeBase.selectTriggerProps.
  rewrite He. split; [done|]. by intros [] s.
Qed.

Lemma deliverAll_not_editable uco (s : Resume.ResumeState) es :
  Resume.mode s = "printing" ∨ Resume.mode s = "changingTemplate" →
  Resume.deliverAll uco es s = Done s.
Proof.
  intros Hm. induction es as [|[ev a] es IH]; [done|].
  simpl. unfold Resume.deliver. simpl.
  destruct (resolve (Resume.children s) a) as [n|]; [|done].
  destruct (not_editable_no_triggers (Resume.propsAt uco s a n)) as [_ ->]; [|done].
  by apply isEditable_false_iff.
Qed.

(** The tracker's own [hoverOver] and [hoverOut] are no-ops while
    printing. *)
Lemma tracker_hover_printing (id : list nat) (s : Resume.ResumeState) :
  Resume.mode s = "printing" →
  Resume.hoverOver id s = s ∧ Resume.hoverOut id s = s.
Proof.
  intros Hm. unfold Resume.hoverOver, Resume.hoverOut, Resume.nonInteractive.
  by rewrite bool_decide_eq_true_2.
Qed.

(** C6. A node whose mode is ['printing'] never reports itself as
    hovering, whatever the tracker has stored, and none of the three
    pointer events reaches a handler: each leaves the session as it was.
    For a printing session every mounted node is in printing mode, every
    run of events leaves the session unchanged, and a tracker that is
    [Idle] stays [Idle]. *)
Theorem printing_absorbs_events :
  (∀ (S : Type) (p : Props.ResumeNodeProps S),
     Props.mode (Props.pass p) = "printing" →
     (∀ s, ResumeNodeBase.isHovering p s = false)
     ∧ (∀ ev s, ResumeNodeBase.fire ev p s = Done s))
  ∧ (∀ uco s,
       Resume.mode s = "printing" →
       (∀ q, q ∈ Resume.render uco s →
          Props.mode (Props.pass q) = "printing"
          ∧ ∀ s', ResumeNodeBase.isHovering q s' = false)
       ∧ (∀ es, Resume.deliverAll uco es s = Done s)
       ∧ (Resume.trackerState s = Resume.Idle →
          ∀ es s', Resume.deliverAll uco es s = Done s' →
                   Resume.trackerState s' = Resume.Idle)).
Proof.
  assert (∀ (S : Type) (p : Props.ResumeNodeProps S),
            Props.mode (Props.pass p) = "printing" →
            ∀ s, ResumeNodeBase.isHovering p s = false) as Hhov.
  { intros S p Hm s. unfold ResumeNodeBase.isHovering, ResumeNodeBase.isPrinting.
    rewrite bool_decide_eq_true_2 by done. apply andb_false_r. }
  split_and!.
  - intros S p Hm. split; [by apply Hhov|].
    apply not_editable_no_triggers, isEditable_false_iff. by left.
  - intros uco s Hm. split_and!.
    + intros q Hq.
      assert (Props.mode (Props.pass q) = "printing") as Hq'
        by (by rewrite (mounted_pass uco s q Hq)).
      split; [done | by apply Hhov].
    + intros es. apply deliverAll_not_editable. by left.
    + intros Hidle es s' Hs'.
      rewrite deliverAll_not_editable in Hs' by (by left). by injection Hs' as <-.
Qed.

(** C6 on the two-node document while printing, with a hover left over
    from before: [B] does not report hovering and entering it changes
    nothing. *)
Lemma printing_absorbs_events_witness :
  let s := Resume.withHover (Some [0; 0]) (Example.session "printing") in
  ResumeNodeBase.isHovering (Example.propsB s) s = false
  ∧ ResumeNodeBase.fire ResumeNodeBase.MouseEnter (Example.propsB s) s = Done s.
Proof.
  intros s.
  destruct (proj1 printing_absorbs_events Resume.ResumeState (Example.propsB s))
    as [Hhov Hfire]; [reflexivity|].
  split; [apply Hhov | apply Hfire].
Defined.

(** C10. A node whose mode is ['changingTemplate'] is not editable and its
    trigger props are the empty object, so no click, enter or leave reaches
    [setSelected], [hoverOver] or [hoverOut]; the trigger props are empty
    in exactly the two modes ['printing'] and ['changingTemplate']; and a
    session in the template-changing mode is left unchanged by every run
    of events. *)
Theorem changingTemplate_detaches_handlers :
  (∀ (S : Type) (p : Props.ResumeNodeProps S),
     Props.mode (Props.pass p) = "changingTemplate" →
     ResumeNodeBase.isEditable p = false
     ∧ ResumeNodeBase.selectTriggerProps p
       = {| Props.onClick := None; Props.onMouseEnter := None;
            Props.onMouseLeave := None |}
     ∧ ∀ ev s, ResumeNodeBase.fire ev p s = Done s)
  ∧ (∀ (S : Type) (p : Props.ResumeNodeProps S),
       ResumeNodeBase.selectTriggerProps p
         = {| Props.onClick := None; Props.onMouseEnter := None;
              Props.onMouseLeave := None |}
       ↔ Props.mode (Props.pass p) = "printing"
         ∨ Props.mode (Props.pass p) = "changingTemplate")
  ∧ (∀ uco s es,
       Resume.mode s = "changingTemplate" →
       Resume.deliverAll uco es s = Done s).
Proof.
  split_and!.
  - intros S p Hm.
    assert (ResumeNodeBase.isEditable p = false) as He
      by (apply isEditable_false_iff; by right).
    split; [done|]. by apply not_editable_no_triggers.
  - intros S p. rewrite <- isEditable_false_iff. split.
    + unfold ResumeNodeBase.selectTriggerProps.
      by destruct (ResumeNodeBase.isEditable p).
    + apply not_editable_no_triggers.
  - intros uco s es Hm. apply deliverAll_not_editable. by right.
Qed.

(** C10 on the two-node document in the template-changing mode: a click on
    [A] changes nothing. *)
Lemma changingTemplate_detaches_handlers_witness :
  let s := Example.session "changingTemplate" in
  ResumeNodeBase.fire ResumeNodeBase.Click (Example.propsA s) s = Done s.
Proof.
  intros s.
  destruct (proj1 changingTemplate_detaches_handlers Resume.ResumeState
              (Example.propsA s)) as (_ & _ & Hfire); [reflexivity|].
  apply Hfire.
Defined.

(** ** Field updates *)

Lemma setField_setField (k : string) (v w : Value) (n : Node) :
  setField k w (setField k v n) = setField k w n.
Proof. unfold setField. simpl. by rewrite insert_insert_eq. Qed.

Lemma updateData_Done (a : list nat) (k : string) (v : Value)
    (s : Resume.ResumeState) (n : Node) :
  resolve (Resume.children s) a = Some n →
  ∃ roots, modify (setField k v) (Resume.children s) a = Some roots
    ∧ Resume.updateData a k v s = Done (Resume.withChildren roots s).
Proof.
  intros Hr. unfold Resume.updateData, update.
  destruct (modify (setField k v) (Resume.children s) a) as [roots|] eqn:Hm.
  - by exists roots.
  - apply modify_None in Hm. congruence.
Qed.

(** C5. When the address does not resolve, [update] throws
    [InvalidAddress] and its caller is left with the session it had. When
    the address resolves to [n], [update] completes; the address then
    resolves to [n] with [value] under [key]; every address resolves
    afterwards iff it did before, to a node whose own part is the same
    except at the updated address; the rest of the session is untouched;
    and the same call made again changes nothing. A mounted node's
    [updateData] is this call at the node's id. In the two-node document
    [update([0,0], "title", "X")] sets the title of [B], and after [B] is
    gone the same call throws and leaves the tree as it was. *)
Theorem update_merges_or_fails :
  (∀ (a : list nat) k v s,
     resolve (Resume.children s) a = None →
     Resume.updateData a k v s = Raised InvalidAddress
     ∧ settle (Resume.updateData a k v) s = (s, Some InvalidAddress))
  ∧ (∀ (a : list nat) k v s n,
       resolve (Resume.children s) a = Some n →
       ∃ s', Resume.updateData a k v s = Done s'
         ∧ resolve (Resume.children s') a = Some (setField k v n)
         ∧ fields (setField k v n) !! k = Some v
         ∧ (∀ b, own <$> resolve (Resume.children s') b
                 = (λ m, if decide (b = a) then own (setField k v m) else own m)
                   <$> resolve (Resume.children s) b)
         ∧ s' = Resume.withChildren (Resume.children s') s
         ∧ Resume.updateData a k v s' = Done s')
  ∧ (∀ uco s q k v, q ∈ Resume.render uco s →
       ResumeNodeBase.updateData q k v = Resume.updateData (Props.id q) k v)
  ∧ (let s0 := Example.session "normal" in
     let gone := Resume.withChildren [setChildren [] Example.nodeA] s0 in
     (∃ s' n', Resume.updateData [0; 0] "title" (VText "X") s0 = Done s'
        ∧ resolve (Resume.children s') [0; 0] = Some n'
        ∧ fields n' !! "title" = Some (VText "X"))
     ∧ settle (Resume.updateData [0; 0] "title" (VText "X")) gone
       = (gone, Some InvalidAddress)).
Proof.
  split_and!.
  - intros a k v s Hr.
    assert (Resume.updateData a k v s = Raised InvalidAddress) as Hu.
    { unfold Resume.updateData, update.
      by rewrite (proj2 (modify_None (setField k v) _ _) Hr). }
    split; [done|]. unfold settle. by rewrite Hu.
  - intros a k v s n Hr.
    destruct (updateData_Done a k v s n Hr) as (roots & Hm & Hu).
    exists (Resume.withChildren roots s). simpl.
    destruct (resolve_modify _ _ _ _ Hm) as (n' & Hn' & Hr').
    assert (n' = n) as -> by congruence.
    split_and!; try done.
    + unfold setField. simpl. apply lookup_insert_eq.
    + by apply resolve_modify_own.
    + unfold Resume.updateData, update. simpl.
      rewrite (modify_id_at _ _ _ _ Hr'); [done|]. apply setField_setField.
  - intros uco s q k v Hq. unfold ResumeNodeBase.updateData.
    by rewrite (mounted_pass uco s q Hq).
  - simpl. split; [|by vm_compute].
    eexists _, _. split_and!; [by vm_compute | by vm_compute | by vm_compute].
Qed.

(** C5 at the address [[0; 1]] of the two-node document, where [A] has no
    second child. *)
Lemma update_merges_or_fails_witness :
  settle (Resume.updateData [0; 1] "title" (VText "X")) (Example.session "normal")
    = (Example.session "normal", Some InvalidAddress).
Proof.
  apply (proj1 update_merges_or_fails [0; 1] "title" (VText "X")
           (Example.session "normal")).
  reflexivity.
Defined.

(** ** The hidden flag *)

Section Hidden.
Variable updateCustomOptions :
  Props.CustomToolbarOptions Resume.ResumeState →
  Resume.ResumeState → Outcome Resume.ResumeState.

Abbreviation render := (Resume.render updateCustomOptions).
Abbreviation propsAt := (Resume.propsAt updateCustomOptions).

Implicit Types (s : Resume.ResumeState) (q : Props.ResumeNodeProps Resume.ResumeState).

Lemma toggleHidden_mounted s q :
  q ∈ render s →
  ResumeNodeBase.toggleHidden q s
    = Resume.updateData (Props.id q) "isHidden"
        (VFlag (negb (hidden (Props.elem q)))) s.
Proof.
  intros Hq. unfold ResumeNodeBase.toggleHidden.
  by rewrite (mounted_pass _ _ _ Hq).
Qed.

Lemma hidden_setField (b : bool) (n : Node) :
  hidden (setField "isHidden" (VFlag b) n) = b.
Proof. unfold hidden, setField. simpl. by rewrite lookup_insert_eq. Qed.

(** One toggle of a mounted node. *)
Lemma toggleHidden_once s q :
  q ∈ render s →
  ∃ roots,
    modify (setField "isHidden" (VFlag (negb (hidden (Props.elem q)))))
      (Resume.children s) (Props.id q) = Some roots
    ∧ ResumeNodeBase.toggleHidden q s = Done (Resume.withChildren roots s)
    ∧ resolve roots (Props.id q)
      = Some (setField "isHidden" (VFlag (negb (hidden (Props.elem q)))) (Props.elem q)).
Proof.
  intros Hq. rewrite (toggleHidden_mounted _ _ Hq).
  destruct (updateData_Done (Props.id q) "isHidden"
              (VFlag (negb (hidden (Props.elem q)))) s (Props.elem q)
              (mounted_resolves _ _ _ Hq)) as (roots & Hm & Hu).
  exists roots. split_and!; [done..|].
  destruct (resolve_modify _ _ _ _ Hm) as (n & Hn & Hr).
  rewrite (mounted_resolves _ _ _ Hq) in Hn. by injection Hn as <-.
Qed.

(** C4. For a mounted node [q], one [toggleHidden] completes and leaves
    the node at [q]'s address with the negated flag, every other field of
    it, its uuid, type and children as they were, and the own part of the
    node at every other address as it was. The node mounted at the same
    address afterwards, toggled in turn, brings the flag back to its
    original value: the tree is then the original one with [isHidden] of
    that node holding the original flag as a boolean, which is the
    original tree itself whenever the field already held that boolean;
    nothing else in the session changes. *)
Theorem toggleHidden_twice_restores s q :
  q ∈ render s →
  let a := Props.id q in
  let h := hidden (Props.elem q) in
  ∃ s1 s2 n1 n2,
    ResumeNodeBase.toggleHidden q s = Done s1
    ∧ resolve (Resume.children s1) a = Some n1
    ∧ hidden n1 = negb h
    ∧ n1 = setField "isHidden" (VFlag (negb h)) (Props.elem q)
    ∧ (∀ b, own <$> resolve (Resume.children s1) b
            = (λ m, if decide (b = a)
                    then own (setField "isHidden" (VFlag (negb h)) m)
                    else own m) <$> resolve (Resume.children s) b)
    ∧ s1 = Resume.withChildren (Resume.children s1) s
    ∧ propsAt s1 a n1 ∈ render s1
    ∧ ResumeNodeBase.toggleHidden (propsAt s1 a n1) s1 = Done s2
    ∧ resolve (Resume.children s2) a = Some n2
    ∧ hidden n2 = h
    ∧ n2 = setField "isHidden" (VFlag h) (Props.elem q)
    ∧ (∀ b, own <$> resolve (Resume.children s2) b
            = (λ m, if decide (b = a)
                    then own (setField "isHidden" (VFlag h) m)
                    else own m) <$> resolve (Resume.children s) b)
    ∧ s2 = Resume.withChildren (Resume.children s2) s
    ∧ (Props.isHidden q = Some (VFlag h) → s2 = s).
Proof.
  intros Hq a h.
  destruct (toggleHidden_once s q Hq) as (roots1 & Hm1 & Ht1 & Hr1).
  fold a h in Hm1, Hr1.
  set (n1 := setField "isHidden" (VFlag (negb h)) (Props.elem q)) in *.
  set (s1 := Resume.withChildren roots1 s) in *.
  assert (propsAt s1 a n1 ∈ render s1) as Hq1.
  { apply render_spec. by exists a, n1. }
  destruct (toggleHidden_once s1 _ Hq1) as (roots2 & Hm2 & Ht2 & Hr2).
  simpl in Hm2, Hr2. fold a in Hm2, Hr2.
  assert (hidden n1 = negb h) as Hh1 by apply hidden_setField.
  rewrite Hh1, negb_involutive in Hm2, Hr2.
  assert (setField "isHidden" (VFlag h) n1
          = setField "isHidden" (VFlag h) (Props.elem q)) as Hn2
    by apply setField_setField.
  rewrite Hn2 in Hr2.
  assert (modify (setField "isHidden" (VFlag h)) (Resume.children s) a
          = Some roots2) as Hm.
  { rewrite <- Hm2, (modify_modify _ _ _ _ _ Hm1).
    apply (modify_ext_at _ _ _ _ _ (mounted_resolves _ _ _ Hq)). symmetry.
    apply setField_setField. }
  exists s1, (Resume.withChildren roots2 s1),
    n1, (setField "isHidden" (VFlag h) (Props.elem q)).
  split_and!; try done.
  - by apply resolve_modify_own.
  - apply hidden_setField.
  - simpl. by apply resolve_modify_own.
  - intros Hfield.
    assert (Some roots2 = Some (Resume.children s)) as [= ->]; [|by destruct s].
    rewrite <- Hm. apply (modify_id_at _ _ _ _ (mounted_resolves _ _ _ Hq)).
    unfold Props.isHidden in Hfield.
    destruct (Props.elem q) as [u t f cs]. unfold setField. simpl in *.
    f_equal. by apply insert_id.
Qed.

End Hidden.

(** C4 on [B] of the two-node document, which starts out shown: after two
    toggles it is shown again. *)
Lemma toggleHidden_twice_restores_witness :
  let s := Example.session "normal" in
  Example.propsB s ∈ Resume.render Example.ignoreOptions s
  ∧ ∃ s1 s2 n2,
      ResumeNodeBase.toggleHidden (Example.propsB s) s = Done s1
      ∧ resolve (Resume.children s2) [0; 0] = Some n2
      ∧ hidden n2 = false
      ∧ s2 = Resume.withChildren (Resume.children s2) s.
Proof.
  intros s.
  assert (Example.propsB s ∈ Resume.render Example.ignoreOptions s) as Hin.
  { apply render_spec. exists [0; 0], Example.nodeB. split; reflexivity. }
  split; [exact Hin|].
  destruct (toggleHidden_twice_restores Example.ignoreOptions s (Example.propsB s) Hin)
    as (s1 & s2 & n1 & n2 & H1 & _ & _ & _ & _ & _ & _ & _ & Hr2 & Hh2 & _ & _ & Hs2 & _).
  exists s1, s2, n2. split_and!; [exact H1 | exact Hr2 | exact Hh2 | exact Hs2].
Defined.

(** ** Editing *)

Lemma isEditing_iff {S : Type} (p : Props.ResumeNodeProps S) (s : S) :
  ResumeNodeBase.isEditing p s = true ↔
  Props.isEditing p = true ∧ ResumeNodeBase.isSelected p s = true.
Proof. unfold ResumeNodeBase.isEditing. apply andb_true_iff. Qed.

Lemma textFieldProps_isEditing {S : Type} (p : Props.ResumeNodeProps S) (s : S) :
  Props.tf_isEditing (ResumeNodeBase.textFieldProps p s)
    = ResumeNodeBase.isEditing p s.
Proof. reflexivity. Qed.

(** Two mounted nodes that are both editing carry the selected uuid. *)
Lemma editing_nodes_share_uuid uco (s : Resume.ResumeState)
    (q1 q2 : Props.ResumeNodeProps Resume.ResumeState) :
  q1 ∈ Resume.render uco s → q2 ∈ Resume.render uco s →
  ResumeNodeBase.isEditing q1 s = true → ResumeNodeBase.isEditing q2 s = true →
  Props.uuid q1 = Props.uuid q2.
Proof.
  intros H1 H2 [_ Hs1]%isEditing_iff [_ Hs2]%isEditing_iff.
  unfold ResumeNodeBase.isSelected in *.
  rewrite (mounted_pass uco s _ H1) in Hs1.
  rewrite (mounted_pass uco s _ H2) in Hs2.
  simpl in *. unfold Resume.isSelected in *.
  apply bool_decide_eq_true in Hs1, Hs2. congruence.
Qed.

(** [Header.render] decides on the [isEditing] prop alone. *)
Lemma Header_showsInput {S : Type} (p : Props.ResumeNodeProps S) :
  Header.showsInput (Header.render p) = Props.isEditing p.
Proof.
  unfold Header.showsInput, Header.render, Header.value. simpl.
  by destruct (Props.isEditing p).
Qed.

(** C7, at the input where the code departs from it. In the two-node
    document with [A] selected and the edit flag set, the header [B] is
    mounted, is not selected, and is not editing by [isEditing] nor by
    [textFieldProps]; [Header.render] shows its [<input>] all the same. *)
Theorem Header_input_without_selection :
  let s := Resume.withEditing true
             (Resume.withSelected (Some "uuid-A") (Example.session "normal")) in
  Example.propsB s ∈ Resume.render Example.ignoreOptions s
  ∧ type (Props.elem (Example.propsB s)) = "Header"
  ∧ ResumeNodeBase.isSelected (Example.propsB s) s = false
  ∧ ResumeNodeBase.isEditing (Example.propsB s) s = false
  ∧ Props.tf_isEditing (ResumeNodeBase.textFieldProps (Example.propsB s) s) = false
  ∧ Header.showsInput (Header.render (Example.propsB s)) = true.
Proof.
  intros s. split_and!; try reflexivity.
  apply render_spec. exists [0; 0], Example.nodeB. split; reflexivity.
Qed.

(** ** Toolbar options *)

(** C8. For a type other than the registered one, [ToolbarOptions] returns
    the empty list, for every node and every callback; it is a total
    function, so no call throws; the list is empty for exactly those
    types; and ["unknown-type"] is one of them. *)
Theorem unregistered_type_no_options :
  (∀ (S : Type) (type : string) (node : Node)
     (updateNode : string → Value → S → Outcome S),
     type ≠ ToolbarOptions.Entry_name →
     ToolbarOptions.ToolbarOptions type node updateNode = [])
  ∧ (∀ (S : Type) (type : string) (node : Node)
       (updateNode : string → Value → S → Outcome S),
       ToolbarOptions.ToolbarOptions type node updateNode = [] ↔
       type ≠ ToolbarOptions.Entry_name)
  ∧ (∀ (S : Type) (node : Node) (updateNode : string → Value → S → Outcome S),
       ToolbarOptions.ToolbarOptions "unknown-type" node updateNode = []).
Proof.
  assert (∀ (S : Type) (type : string) (node : Node)
            (updateNode : string → Value → S → Outcome S),
            type ≠ ToolbarOptions.Entry_name →
            ToolbarOptions.ToolbarOptions type node updateNode = []) as Hne.
  { intros S type node updateNode Ht. unfold ToolbarOptions.ToolbarOptions.
    by rewrite bool_decide_eq_false_2. }
  split_and!; [done | | by intros; apply Hne].
  intros S type node updateNode. split; [|by apply Hne].
  unfold ToolbarOptions.ToolbarOptions. by case_bool_decide.
Qed.

(** C8 for the type ["Section"] and the node [A] of the two-node
    document. *)
Lemma unregistered_type_no_options_witness :
  ToolbarOptions.ToolbarOptions "Section" Example.nodeA
    (λ key value, Resume.updateData [0] key value) = [].
Proof.
  apply (proj1 unregistered_type_no_options). discriminate.
Defined.

(** * Further properties of the components *)

(** ** Splitting and joining *)

Lemma split_nonempty (sep : ascii) (s : string) : split sep s ≠ [].
Proof.
  destruct s as [|c s]; simpl; [done|].
  case_bool_decide; [done|]. by destruct (split sep s).
Qed.

Lemma join_cons (sep : ascii) (x : string) (l : list string) :
  l ≠ [] → join sep (x :: l) = (x +:+ String sep (join sep l)).
Proof. by destruct l. Qed.

Lemma join_split (sep : ascii) (s : string) : join sep (split sep s) = s.
Proof.
  induction s as [|c s IH]; [done|]. simpl.
  pose proof (split_nonempty sep s) as Hne.
  case_bool_decide as Hc.
  - rewrite join_cons by done. simpl. by rewrite IH, Hc.
  - destruct (split sep s) as [|piece pieces]; [done|].
    destruct pieces as [|p ps].
    + unfold join in *. simpl in *. by rewrite IH.
    + rewrite join_cons by done. rewrite join_cons in IH by done.
      by rewrite <- IH.
Qed.

Lemma split_pieces_free (sep : ascii) (s : string) :
  Forall (λ x, hasChar sep x = false) (split sep s).
Proof.
  induction s as [|c s IH]; simpl; [by repeat constructor|].
  case_bool_decide as Hc; [by constructor|].
  destruct (split sep s) as [|piece pieces]; simpl.
  - repeat constructor. simpl. by rewrite bool_decide_eq_false_2.
  - inversion_clear IH as [|?? Hp Hps]. constructor; [|done].
    simpl. by rewrite bool_decide_eq_false_2.
Qed.

Lemma length_split (sep : ascii) (s : string) :
  length (split sep s) = S (countChar sep s).
Proof.
  induction s as [|c s IH]; [done|]. simpl.
  case_bool_decide; simpl; [by rewrite IH|].
  destruct (split sep s); simpl in *; lia.
Qed.

Lemma split_free (sep : ascii) (x : string) :
  hasChar sep x = false → split sep x = [x].
Proof.
  induction x as [|c x IH]; [done|]. simpl.
  intros [Hc Hx]%orb_false_iff. rewrite Hc, (IH Hx). done.
Qed.

Lemma split_app_sep (sep : ascii) (x rest : string) :
  hasChar sep x = false →
  split sep (x +:+ String sep rest) = x :: split sep rest.
Proof.
  induction x as [|c x IH]; simpl.
  - intros _. by rewrite bool_decide_eq_true_2.
  - intros [Hc Hx]%orb_false_iff. by rewrite Hc, (IH Hx).
Qed.

Lemma split_join (sep : ascii) (l : list string) :
  l ≠ [] → Forall (λ x, hasChar sep x = false) l →
  split sep (join sep l) = l.
Proof.
  induction l as [|x l IH]; [done|]. intros _ Hfree.
  inversion_clear Hfree as [|?? Hx Hl].
  destruct (decide (l = [])) as [->|Hne].
  - by apply split_free.
  - rewrite join_cons by done. rewrite split_app_sep by done.
    by rewrite IH.
Qed.

(** ** The classes of a node *)

Ltac class_cases p s :=
  unfold ResumeNodeBase.className, ResumeNodeBase.classes,
    ResumeNodeBase.isEditing, ResumeNodeBase.isHovering,
    ResumeNodeBase.isSelected, ResumeNodeBase.isSelectBlocked,
    ResumeNodeBase.isPrinting;
  destruct (bool_decide (Props.mode (Props.pass p) = "printing")),
    (Props.isHovering (Props.pass p) (Props.id p) s),
    (Props.isSelectBlocked (Props.pass p) (Props.id p) s),
    (Props.isSelected (Props.pass p) (Props.uuid p) s),
    (Props.isEditing p),
    (truthy (Props.isHidden p)).

Section Classes.
Context {S : Type}.
Implicit Types (p : Props.ResumeNodeProps S) (s : S).

Lemma classes_elem p s (x : string) :
  x ∈ ResumeNodeBase.classes p s ↔
    (x = "resume-hovering" ∧ ResumeNodeBase.isHovering p s = true)
    ∨ (x = "resume-hovering-over-children"
       ∧ ResumeNodeBase.isHovering p s = true
       ∧ ResumeNodeBase.isSelectBlocked p s = true)
    ∨ (x = "resume-hovering-over-self"
       ∧ ResumeNodeBase.isHovering p s = true
       ∧ ResumeNodeBase.isSelectBlocked p s = false)
    ∨ (x = "resume-selected"
       ∧ ResumeNodeBase.isSelected p s = true
       ∧ ResumeNodeBase.isPrinting p = false)
    ∨ (x = "resume-editing"
       ∧ ResumeNodeBase.isEditing p s = true
       ∧ ResumeNodeBase.isPrinting p = false)
    ∨ (x = "resume-hidden" ∧ truthy (Props.isHidden p) = true).
Proof.
  class_cases p s; simpl;
    rewrite ?elem_of_cons, ?elem_of_nil; intuition congruence.
Qed.

(** X1. While printing, the only class a node can carry is
    ['resume-hidden'], and it carries it exactly when its [isHidden] prop
    is truthy: hovering, selection and editing leave no mark. *)
Theorem classes_while_printing p s :
  Props.mode (Props.pass p) = "printing" →
  ResumeNodeBase.classes p s
    = (if truthy (Props.isHidden p) then ["resume-hidden"] else [])
  ∧ ResumeNodeBase.className p s
    = (if truthy (Props.isHidden p) then "resume-hidden" else "").
Proof.
  intros Hm. unfold ResumeNodeBase.className, ResumeNodeBase.classes,
    ResumeNodeBase.isPrinting.
  rewrite bool_decide_eq_true_2 by done. simpl.
  by destruct (truthy (Props.isHidden p)).
Qed.

(** X2. A node carries ['resume-hovering'] exactly when its [isHovering]
    getter holds, and then exactly one of
    ['resume-hovering-over-children'] (when it is select-blocked) and
    ['resume-hovering-over-self'] (when it is not); neither of the two
    appears without ['resume-hovering']. *)
Theorem classes_hovering p s :
  ("resume-hovering" ∈ ResumeNodeBase.classes p s
     ↔ ResumeNodeBase.isHovering p s = true)
  ∧ ("resume-hovering-over-children" ∈ ResumeNodeBase.classes p s
     ↔ ResumeNodeBase.isHovering p s = true
       ∧ ResumeNodeBase.isSelectBlocked p s = true)
  ∧ ("resume-hovering-over-self" ∈ ResumeNodeBase.classes p s
     ↔ ResumeNodeBase.isHovering p s = true
       ∧ ResumeNodeBase.isSelectBlocked p s = false)
  ∧ ¬ ("resume-hovering-over-children" ∈ ResumeNodeBase.classes p s
       ∧ "resume-hovering-over-self" ∈ ResumeNodeBase.classes p s).
Proof.
  rewrite !classes_elem.
  destruct (ResumeNodeBase.isHovering p s), (ResumeNodeBase.isSelectBlocked p s);
    intuition congruence.
Qed.

(** X3. Outside printing, ['resume-selected'] marks exactly the selected
    node and ['resume-editing'] exactly the node whose [isEditing] getter
    holds; so ['resume-editing'] never appears without
    ['resume-selected']. *)
Theorem classes_selected_editing p s :
  ("resume-selected" ∈ ResumeNodeBase.classes p s
     ↔ ResumeNodeBase.isSelected p s = true
       ∧ ResumeNodeBase.isPrinting p = false)
  ∧ ("resume-editing" ∈ ResumeNodeBase.classes p s
     ↔ ResumeNodeBase.isEditing p s = true
       ∧ ResumeNodeBase.isPrinting p = false)
  ∧ ("resume-editing" ∈ ResumeNodeBase.classes p s →
     "resume-selected" ∈ ResumeNodeBase.classes p s).
Proof.
  rewrite !classes_elem. unfold ResumeNodeBase.isEditing.
  destruct (ResumeNodeBase.isSelected p s), (ResumeNodeBase.isPrinting p),
    (Props.isEditing p); simpl; intuition congruence.
Qed.

End Classes.

Section ClassStrings.
Context {S : Type}.
Implicit Types (p : Props.ResumeNodeProps S) (s : S).

Lemma classes_shape p s :
  NoDup (ResumeNodeBase.classes p s)
  ∧ Forall (λ x, hasChar " " x = false) (ResumeNodeBase.classes p s)
  ∧ ("row" ∉ ResumeNodeBase.classes p s)
  ∧ ("" ∉ ResumeNodeBase.classes p s).
Proof.
  rewrite !classes_elem. split_and!; [| |intuition congruence..].
  - class_cases p s; simpl; apply (bool_decide_unpack _); by vm_compute.
  - class_cases p s; simpl; by repeat constructor.
Qed.

(** X4. No class is listed twice, every listed class is one of the six
    names, and ['resume-hidden'] is listed exactly when the [isHidden]
    prop is truthy, in every mode. *)
Theorem classes_distinct p s :
  NoDup (ResumeNodeBase.classes p s)
  ∧ (∀ x, x ∈ ResumeNodeBase.classes p s →
       x ∈ ["resume-hovering"; "resume-hovering-over-children";
            "resume-hovering-over-self"; "resume-selected";
            "resume-editing"; "resume-hidden"])
  ∧ ("resume-hidden" ∈ ResumeNodeBase.classes p s
     ↔ truthy (Props.isHidden p) = true).
Proof.
  split_and!.
  - apply classes_shape.
  - intros x. rewrite classes_elem, !elem_of_cons. intuition congruence.
  - rewrite classes_elem. intuition congruence.
Qed.

Lemma split_className p s :
  ResumeNodeBase.classes p s ≠ [] →
  split " " (ResumeNodeBase.className p s) = ResumeNodeBase.classes p s.
Proof.
  intros Hne. destruct (classes_shape p s) as (_ & Hfree & _).
  by apply split_join.
Qed.

(** X5. [className] loses nothing: splitting it at the spaces gives the
    classes back, unless there are none, and it is the empty string
    exactly when there are none. *)
Theorem className_split p s :
  (ResumeNodeBase.classes p s ≠ [] →
   split " " (ResumeNodeBase.className p s) = ResumeNodeBase.classes p s)
  ∧ (ResumeNodeBase.className p s = "" ↔ ResumeNodeBase.classes p s = []).
Proof.
  destruct (classes_shape p s) as (_ & _ & _ & Hempty).
  pose proof (split_className p s) as Hsplit.
  split; [done|]. split.
  - intros Hnil. destruct (decide (ResumeNodeBase.classes p s = [])) as [|Hne];
      [done|].
    apply Hsplit in Hne. rewrite Hnil in Hne. simpl in Hne.
    rewrite <- Hne in Hempty. by apply not_elem_of_cons in Hempty as [? _].
  - unfold ResumeNodeBase.className. by intros ->.
Qed.

End ClassStrings.

(** ** The class name of a header *)

Lemma foldl_setAdd_elem (x : string) (l acc : list string) :
  x ∈ foldl setAdd acc l ↔ x ∈ acc ∨ x ∈ l.
Proof.
  revert acc. induction l as [|y l IH]; intros acc; simpl.
  - rewrite elem_of_nil. tauto.
  - rewrite IH, elem_of_cons. unfold setAdd. case_bool_decide.
    + split; [tauto|]. intros [?|[->|?]]; tauto.
    + rewrite elem_of_app, list_elem_of_singleton. tauto.
Qed.

Lemma foldl_setAdd_NoDup (l acc : list string) :
  NoDup acc → NoDup (foldl setAdd acc l).
Proof.
  revert acc. induction l as [|y l IH]; intros acc Hacc; [done|].
  simpl. apply IH. unfold setAdd. case_bool_decide; [done|].
  apply NoDup_app. split_and!; [done | | apply NoDup_singleton].
  intros z Hz ->%list_elem_of_singleton. done.
Qed.

Lemma foldl_setAdd_fresh (l acc : list string) :
  NoDup (acc ++ l) → foldl setAdd acc l = acc ++ l.
Proof.
  revert acc. induction l as [|y l IH]; intros acc Hnd; simpl.
  - by rewrite app_nil_r.
  - assert (y ∉ acc) as Hy.
    { apply NoDup_app in Hnd as (_ & Hd & _). intros Hin.
      apply (Hd y Hin). by left. }
    unfold setAdd. rewrite bool_decide_eq_false_2 by done.
    rewrite IH; rewrite <- app_assoc; done.
Qed.

Lemma setDelete_absent (x : string) (l : list string) :
  x ∉ l → setDelete x l = l.
Proof.
  intros Hx. unfold setDelete. induction l as [|y l IH]; [done|].
  apply not_elem_of_cons in Hx as [Hxy Hl].
  rewrite filter_cons_True by done. by rewrite IH.
Qed.

(** The classes a header keeps of its [super.className]. *)
Lemma Header_classes (super : string) :
  let kept := setDelete "row" (newSet (split " " super)) in
  NoDup kept
  ∧ (∀ x, x ∈ kept ↔ x ∈ split " " super ∧ x ≠ "row")
  ∧ Forall (λ x, hasChar " " x = false) kept.
Proof.
  intros kept.
  assert (∀ x, x ∈ kept ↔ x ∈ split " " super ∧ x ≠ "row") as Helem.
  { intros x. unfold kept, setDelete, newSet.
    rewrite list_elem_of_filter, foldl_setAdd_elem, elem_of_nil. tauto. }
  split_and!; [|done|].
  - apply NoDup_filter, foldl_setAdd_NoDup, NoDup_nil_2.
  - apply Forall_forall. intros x [Hx _]%Helem.
    by apply (proj1 (Forall_forall _ _) (split_pieces_free " " super)).
Qed.

(** X6. Whatever [super.className] is, the class name of a header never
    has the class ['row'] and never has a class twice; every non-empty
    class of it is a class of [super.className] other than ['row'], and
    every such class is kept; and building it from its own result changes
    nothing. *)
Theorem Header_className_drops_row (super : string) :
  ("row" ∉ split " " (Header.className super))
  ∧ NoDup (split " " (Header.className super))
  ∧ (∀ x, x ≠ "" →
       (x ∈ split " " (Header.className super)
        ↔ x ∈ split " " super ∧ x ≠ "row"))
  ∧ Header.className (Header.className super) = Header.className super.
Proof.
  destruct (Header_classes super) as (Hnd & Helem & Hfree).
  unfold Header.className.
  set (kept := setDelete "row" (newSet (split " " super))) in *.
  destruct (decide (kept = [])) as [Hnil|Hne].
  - rewrite Hnil. simpl. split_and!.
    + by intros [=]%list_elem_of_singleton.
    + apply NoDup_singleton.
    + intros x Hx. rewrite list_elem_of_singleton, <- Helem, Hnil, elem_of_nil.
      tauto.
    + reflexivity.
  - rewrite (split_join _ _ Hne Hfree). split_and!; [|done|by intros; apply Helem|].
    + intros Hrow%Helem. tauto.
    + unfold newSet. rewrite foldl_setAdd_fresh by done. simpl.
      rewrite setDelete_absent; [done|]. intros Hrow%Helem. tauto.
Qed.

(** X7. A class name made by [ResumeNodeBase.className] passes through
    [Header.className] unchanged: it has no ['row'] to drop and no class
    twice. *)
Theorem Header_className_of_base {S : Type} (p : Props.ResumeNodeProps S) (s : S) :
  Header.className (ResumeNodeBase.className p s) = ResumeNodeBase.className p s.
Proof.
  destruct (classes_shape p s) as (Hnd & Hfree & Hrow & _).
  destruct (decide (ResumeNodeBase.classes p s = [])) as [Hnil|Hne].
  - unfold ResumeNodeBase.className. by rewrite Hnil.
  - unfold Header.className.
    rewrite (split_className p s Hne).
    unfold newSet. rewrite foldl_setAdd_fresh by done. simpl.
    by rewrite setDelete_absent.
Qed.

(** ** Children, text fields and the header's title *)

Section NodeParts.
Context {S : Type}.
Implicit Types (p : Props.ResumeNodeProps S) (s : S).

(** X8. [renderChildren] yields one props object per child, in order; the
    j-th carries the j-th child and its uuid, the index j, the number of
    siblings, the parent's id as [parentId] and the parent's mode and
    callbacks untouched; and it yields nothing exactly when [isEmpty]
    holds. *)
Theorem renderChildren_shape p :
  length (ResumeNodeBase.renderChildren p) = length (Props.children p)
  ∧ (∀ j cp, ResumeNodeBase.renderChildren p !! j = Some cp →
       Props.children p !! j = Some (Props.c_elem cp)
       ∧ Props.c_uuid cp = uuid (Props.c_elem cp)
       ∧ Props.index cp = j
       ∧ Props.numChildren cp = length (Props.children p)
       ∧ Props.parentId cp = Some (Props.id p)
       ∧ Props.c_pass cp = Props.pass p)
  ∧ (∀ j c, Props.children p !! j = Some c →
       ∃ cp, ResumeNodeBase.renderChildren p !! j = Some cp
             ∧ Props.c_elem cp = c)
  ∧ (ResumeNodeBase.isEmpty p = true ↔ ResumeNodeBase.renderChildren p = []).
Proof.
  unfold ResumeNodeBase.renderChildren. split_and!.
  - apply length_imap.
  - intros j cp. rewrite list_lookup_imap.
    destruct (Props.children p !! j) as [c|]; [|done].
    by intros [= <-].
  - intros j c Hc. rewrite list_lookup_imap, Hc. by eexists.
  - unfold ResumeNodeBase.isEmpty. rewrite bool_decide_eq_true.
    destruct (Props.children p); simpl; split; done.
Qed.

(** X9. The text field of a node is editing only while the node is
    selected, and then its click handler is attached and is [toggleEdit]
    at the node's id; the field of an unselected node has no click
    handler, yet its Enter handler is [toggleEdit] all the same. *)
Theorem textField_handlers p s :
  (Props.tf_isEditing (ResumeNodeBase.textFieldProps p s) = true →
   ResumeNodeBase.isSelected p s = true
   ∧ Props.tf_onClick (ResumeNodeBase.textFieldProps p s)
     = Some (Props.toggleEdit (Props.pass p) (Props.id p)))
  ∧ (Props.tf_onClick (ResumeNodeBase.textFieldProps p s) = None
     ↔ ResumeNodeBase.isSelected p s = false)
  ∧ Props.tf_onEnterDown (ResumeNodeBase.textFieldProps p s)
    = Props.toggleEdit (Props.pass p) (Props.id p).
Proof.
  unfold ResumeNodeBase.textFieldProps, ResumeNodeBase.toggleEdit. simpl.
  destruct (ResumeNodeBase.isSelected p s), (Props.isEditing p);
    split_and!; done.
Qed.

(** X10. A header that is not editing shows a truthy text: its [value] as
    it is whenever that is truthy, a value that merely looks blank
    included, and ["Enter a title"] when the value is missing or falsy. A
    header that is editing shows the input with the raw value, and what
    is typed goes to [updateData] at the header's id under [value]. *)
Theorem Header_title p :
  (Props.isEditing p = false →
   ∃ shown, Header.title (Header.render p) = Header.TitleText shown
     ∧ truthy (Some shown) = true
     ∧ (truthy (fields (Props.elem p) !! "value") = true →
        fields (Props.elem p) !! "value" = Some shown)
     ∧ (truthy (fields (Props.elem p) !! "value") = false →
        shown = VText "Enter a title"))
  ∧ (Props.isEditing p = true →
     ∃ onChange,
       Header.title (Header.render p)
         = Header.TitleInput (fields (Props.elem p) !! "value") onChange
       ∧ ∀ text, onChange text
           = Props.updateData (Props.pass p) (Props.id p) "value" (VText text)).
Proof.
  unfold Header.render, Header.value. simpl. split; intros ->.
  - destruct (fields (Props.elem p) !! "value") as [[t|[]|l|kvs]|]; simpl;
      try case_bool_decide; simpl; eexists; (split_and!; [done|..]);
      simpl; rewrite ?bool_decide_eq_false_2 by done;
      rewrite ?bool_decide_eq_true_2 by done; done.
  - by eexists.
Qed.

End NodeParts.

(** X10 on the header [B] of the two-node document, which is not editing
    and whose value is "Skills". *)
Lemma Header_title_witness :
  ∃ shown,
    Header.title (Header.render (Example.propsB (Example.session "normal")))
      = Header.TitleText shown
    ∧ truthy (Some shown) = true.
Proof.
  destruct (proj1 (Header_title (Example.propsB (Example.session "normal"))))
    as (shown & Ht & Htruthy & _); [reflexivity|].
  exists shown. split; [exact Ht | exact Htruthy].
Defined.

(** X9 on the node [B] of the two-node document once it is selected and
    the edit flag is set. *)
Lemma textField_handlers_witness :
  let s := Resume.withEditing true
             (Resume.withSelected (Some "uuid-B") (Example.session "normal")) in
  ResumeNodeBase.isSelected (Example.propsB s) s = true.
Proof.
  intros s.
  apply (proj1 (textField_handlers (Example.propsB s) s)). reflexivity.
Defined.

(** ** The options of an entry *)

(** X11. Adding a field to a title or subtitle: an array gets one more,
    empty, field at its end; a missing or falsy value starts the array
    with one empty field; the result is never empty and always ends with
    the empty field; and the call throws exactly when the value is truthy
    and not an array. *)
Theorem pushField_appends (key : string) (node : Node) :
  (∀ arr, fields node !! key = Some (VTexts arr) →
          ToolbarOptions.pushField key node = Some (arr ++ [""]))
  ∧ (truthy (fields node !! key) = false →
     ToolbarOptions.pushField key node = Some [""])
  ∧ (∀ arr', ToolbarOptions.pushField key node = Some arr' →
       last arr' = Some "" ∧ arr' ≠ [])
  ∧ (ToolbarOptions.pushField key node = None ↔
     truthy (fields node !! key) = true
     ∧ ∀ arr, fields node !! key ≠ Some (VTexts arr)).
Proof.
  unfold ToolbarOptions.pushField.
  assert (∀ l : list string, last (l ++ [""]) = Some "" ∧ l ++ [""] ≠ [])
    as Hlast.
  { intros l. rewrite last_snoc. split; [done|]. by intros [_ ?]%app_nil. }
  destruct (fields node !! key) as [[t|[]|l|kvs]|] eqn:Hf; simpl;
    try case_bool_decide; simpl.
  all: split_and!; try done.
  all: try (intros arr' [= <-]; apply (Hlast [])).
  all: try (intros arr' [= <-]; apply Hlast).
  all: try (by intros arr [= ->]).
  all: try (split; [done | by intros [? _]]).
  all: try (split; [done | intros [_ Harr]; by destruct (Harr l)]).
Qed.

(** X11 on a node whose title has one field. *)
Lemma pushField_appends_witness :
  ToolbarOptions.addTitleField
    (mkNode "uuid-E" "Entry" {[ "title" := VTexts ["Engineer"] ]} [])
  = Some ["Engineer"; ""].
Proof.
  apply (proj1 (pushField_appends "title" _) ["Engineer"]). reflexivity.
Defined.

(** X12. Whatever the type, the node and the callback, every entry of the
    option tree is a leaf with an action or a node with a submenu, at
    every depth; the tree offers exactly the two actions "Add another
    title field" and "Add another subtitle field", in this order, for the
    registered type and none for any other. *)
Theorem ToolbarOptions_wellFormed {S : Type} (type : string) (node : Node)
    (updateNode : string → Value → S → Outcome S) :
  forallb OptionTree.wellFormed
    (ToolbarOptions.ToolbarOptions type node updateNode) = true
  ∧ fst <$> flat_map OptionTree.actionsOf
              (ToolbarOptions.ToolbarOptions type node updateNode)
    = if bool_decide (type = ToolbarOptions.Entry_name)
      then ["Add another title field"; "Add another subtitle field"]
      else [].
Proof.
  unfold ToolbarOptions.ToolbarOptions. by case_bool_decide.
Qed.

(** X14. When the title of the node is truthy and not an array, the first
    action throws a [TypeError] in every state and the callback is not
    called: the outcome is the same for every callback. *)
Theorem Entry_title_action_throws {S : Type} (node : Node)
    (updateNode : string → Value → S → Outcome S) :
  ToolbarOptions.addTitleField node = None →
  ∃ run rest,
    flat_map OptionTree.actionsOf
      (ToolbarOptions.ToolbarOptions ToolbarOptions.Entry_name node updateNode)
    = ("Add another title field", run) :: rest
    ∧ ∀ s, run s = Raised TypeError.
Proof.
  intros Ht. unfold ToolbarOptions.ToolbarOptions. simpl.
  eexists _, _. split; [reflexivity|]. intros s. simpl. by rewrite Ht.
Qed.

(** X14 on a node whose title is a text, not an array. *)
Lemma Entry_title_action_throws_witness :
  let node := mkNode "uuid-E" "Entry" {[ "title" := VText "Engineer" ]} [] in
  ∃ run rest,
    flat_map OptionTree.actionsOf
      (ToolbarOptions.ToolbarOptions ToolbarOptions.Entry_name node
         (λ key v, Resume.updateData [0] key v))
    = ("Add another title field", run) :: rest
    ∧ ∀ s, run s = Raised TypeError.
Proof.
  intros node.
  apply (Entry_title_action_throws node (λ key v, Resume.updateData [0] key v)).
  reflexivity.
Defined.

(** ** The earlier build *)

Lemma imap_keys {A : Type} (l : list A) :
  (imap (λ idx x, (idx, x)) l).*1 = seq 0 (length l)
  ∧ (imap (λ idx x, (idx, x)) l).*2 = l.
Proof.
  split.
  - rewrite fmap_imap.
    rewrite (imap_ext _ (λ idx _, 0 + idx) l) by done.
    generalize 0 as k. induction l as [|x l IH]; intros k; [done|].
    simpl. rewrite Nat.add_0_r. f_equal. rewrite <- (IH (S k)).
    apply imap_ext. intros i y _. simpl. lia.
  - rewrite fmap_imap. induction l as [|x l IH]; [done|].
    simpl. f_equal. exact IH.
Qed.

(** X15. A holder built from anything but an array has exactly one
    member, [undefined] included; [addChild] puts the child behind the
    members there are, which keep their keys; the keys of a holder are
    0, 1, ... in order; so the first child added to a holder built from a
    missing [children] prop gets the key 1, behind the [undefined]
    member. *)
Theorem ChildHolder_keys {A : Type} :
  (∀ other : option A, length (Bundle.ChildHolder (inr other)) = 1)
  ∧ (∀ (child : option A) holder,
       Bundle.render (Bundle.addChild child holder)
       = Bundle.render holder ++ [(length holder, child)])
  ∧ (∀ holder : list (option A),
       (Bundle.render holder).*1 = seq 0 (length holder)
       ∧ (Bundle.render holder).*2 = holder)
  ∧ (∀ child : option A,
       Bundle.render (Bundle.addChild child (Bundle.ChildHolder (inr None)))
       = [(0, None); (1, child)]).
Proof.
  split_and!; try done.
  - intros child holder. unfold Bundle.render, Bundle.addChild.
    rewrite imap_app. simpl. by rewrite Nat.add_0_r.
  - intros holder. apply imap_keys.
Qed.

(** X16. [processTextArea] cuts the value into its lines: joined with
    newlines they give the value back, there is one more line than there
    are newlines in the value, no line holds a newline, and the lines are
    keyed 0, 1, ... in order. *)
Theorem processTextArea_lines (value : string) :
  join "010" (Bundle.processTextArea value).*2 = value
  ∧ length (Bundle.processTextArea value) = S (countChar "010" value)
  ∧ Forall (λ line, hasChar "010" line = false) (Bundle.processTextArea value).*2
  ∧ (Bundle.processTextArea value).*1
    = seq 0 (length (Bundle.processTextArea value)).
Proof.
  unfold Bundle.processTextArea.
  destruct (imap_keys (split "010" value)) as [Hkeys Hlines].
  rewrite Hlines, Hkeys, length_imap. split_and!.
  - apply join_split.
  - apply length_split.
  - apply split_pieces_free.
  - done.
Qed.

(** ** What a node calls *)

(** X17. Whatever the mode, the hover and the selection, each method of a
    node and each pointer event on it makes at most one call into the
    session, and the call carries the node's own id: a node never acts on
    another address, never clears the selection and never replaces the
    toolbar options. *)
Theorem node_calls_own_id (p : Props.ResumeNodeProps (list Recording.Call))
    mode hovering selected blocked :
  Props.pass p = Recording.pass mode hovering selected blocked →
  ∀ run : list Recording.Call → Outcome (list Recording.Call),
    (run = ResumeNodeBase.toggleEdit p
     ∨ (∃ node, run = ResumeNodeBase.addChild p node)
     ∨ (∃ key data, run = ResumeNodeBase.updateData p key data)
     ∨ run = ResumeNodeBase.toggleHidden p
     ∨ run = ResumeNodeBase.setSelected p
     ∨ (∃ ev, run = ResumeNodeBase.fire ev p)) →
    ∀ log, ∃ calls,
      run log = Done (log ++ calls)
      ∧ (length calls ≤ 1)%nat
      ∧ ∀ c, c ∈ calls → Recording.target c = Some (Props.id p).
Proof.
  intros Hpass run Hrun log.
  assert (∀ c, ∃ calls,
            Done (S := list Recording.Call) (log ++ [c]) = Done (log ++ calls)
            ∧ (length calls ≤ 1)%nat
            ∧ (Recording.target c = Some (Props.id p) →
               ∀ c', c' ∈ calls → Recording.target c' = Some (Props.id p)))
    as Hone.
  { intros c. exists [c]. split_and!; [done | simpl; lia |].
    by intros Hc c' ->%list_elem_of_singleton. }
  assert (∃ calls,
            Done (S := list Recording.Call) log = Done (log ++ calls)
            ∧ (length calls ≤ 1)%nat
            ∧ ∀ c, c ∈ calls → Recording.target c = Some (Props.id p))
    as Hnone.
  { exists []. rewrite app_nil_r. split_and!; [done | simpl; lia |].
    by intros c ?%elem_of_nil. }
  assert (∀ c, Recording.target c = Some (Props.id p) →
            ∃ calls,
              Done (S := list Recording.Call) (log ++ [c]) = Done (log ++ calls)
              ∧ (length calls ≤ 1)%nat
              ∧ ∀ c', c' ∈ calls → Recording.target c' = Some (Props.id p))
    as Hcall.
  { intros c Hc. destruct (Hone c) as (calls & ? & ? & Hall).
    exists calls. split_and!; [done..|]. by apply Hall. }
  assert (∃ calls,
            ResumeNodeBase.setSelected p log = Done (log ++ calls)
            ∧ (length calls ≤ 1)%nat
            ∧ ∀ c, c ∈ calls → Recording.target c = Some (Props.id p))
    as Hclick.
  { unfold ResumeNodeBase.setSelected.
    destruct (negb (ResumeNodeBase.isSelected p log)
              && negb (ResumeNodeBase.isSelectBlocked p log)); [|done].
    rewrite Hpass. simpl. by apply Hcall. }
  destruct Hrun as [->|[[node ->]|[(key & data & ->)|[->|[->|[ev ->]]]]]].
  - unfold ResumeNodeBase.toggleEdit. rewrite Hpass. simpl. by apply Hcall.
  - unfold ResumeNodeBase.addChild. rewrite Hpass. simpl. by apply Hcall.
  - unfold ResumeNodeBase.updateData. rewrite Hpass. simpl. by apply Hcall.
  - unfold ResumeNodeBase.toggleHidden. rewrite Hpass. simpl. by apply Hcall.
  - done.
  - unfold ResumeNodeBase.fire, ResumeNodeBase.selectTriggerProps.
    destruct (negb (ResumeNodeBase.isEditable p)); [by destruct ev|].
    destruct ev; simpl; [done | |]; rewrite Hpass; simpl; by apply Hcall.
Qed.

(** X17 on a node of the recording session that is neither selected nor
    blocked: a click is the one call [updateSelected] with its id. *)
Lemma node_calls_own_id_witness :
  let p := {| Props.id := [0; 0]; Props.uuid := "uuid-B";
              Props.pass := Recording.pass "normal" (λ _ _, false)
                              (λ _ _, false) (λ _ _, false);
              Props.elem := Example.nodeB; Props.isEditing := false |} in
  ∃ calls,
    ResumeNodeBase.fire ResumeNodeBase.Click p [] = Done ([] ++ calls)
    ∧ (length calls ≤ 1)%nat
    ∧ ∀ c, c ∈ calls → Recording.target c = Some [0; 0].
Proof.
  intros p.
  apply (node_calls_own_id p "normal" (λ _ _, false) (λ _ _, false)
           (λ _ _, false) eq_refl (ResumeNodeBase.fire ResumeNodeBase.Click p)).
  do 5 right. by exists ResumeNodeBase.Click.
Defined.

(** X1 on the node [B] of the two-node document while printing, selected
    and hovered. *)
Lemma classes_while_printing_witness :
  let s := Resume.withHover (Some [0; 0])
             (Resume.withSelected (Some "uuid-B") (Example.session "printing")) in
  ResumeNodeBase.classes (Example.propsB s) s = [].
Proof.
  intros s.
  apply (proj1 (classes_while_printing (Example.propsB s) s eq_refl)).
Defined.
